(** * alot/crypto.py: key resolution, key validation and the PGP/MIME primitives

    A shallow embedding of [src/alot/crypto.py].  Python exceptions are
    modelled by an error monad [result]; the external [gpg] binding is a
    record of functions ([Engine]) so that every function of the module can
    be run against a concrete engine.  The values of the [GPGCode]
    constants, which the sources do not give, are a parameter
    ([GPGCode_values]); the closed examples run with the table
    [sample_codes]. *)

From Stdlib Require Import String Ascii List ZArith Bool Lia Permutation DecimalString.
Import ListNotations.
Local Open Scope string_scope.
Local Open Scope Z_scope.

(** ** Strings *)

(** The double-quote character, used by the messages of [validate_key]. *)
Definition dquote : string := String "034"%char EmptyString.

(** [str.lower] on byte strings: the ASCII capitals are shifted by 32, every
    other byte is kept. *)
Definition lower_ascii (c : ascii) : ascii :=
  let n := nat_of_ascii c in
  if (Nat.leb 65 n && Nat.leb n 90)%bool then ascii_of_nat (n + 32) else c.

Fixpoint lower (s : string) : string :=
  match s with
  | EmptyString => EmptyString
  | String c r => String (lower_ascii c) (lower r)
  end.

Definition is_upper (c : ascii) : bool :=
  let n := nat_of_ascii c in (Nat.leb 65 n && Nat.leb n 90)%bool.

Fixpoint no_upper (s : string) : bool :=
  match s with
  | EmptyString => true
  | String c r => negb (is_upper c) && no_upper r
  end.

(** ** Values owned by the engine *)

(** A user id of a key ([gpgme_user_id_t]): the attributes the module reads. *)
Record UserID := mkUserID {
  uid : string;
  email : string;
  uid_revoked : bool;
  uid_invalid : bool;
  validity : Z
}.

(** A key ([gpgme_key_t]): the attributes the module reads.  [uids] is a
    Python sequence and may be empty. *)
Record Key := mkKey {
  fpr : string;
  revoked : bool;
  expired : bool;
  invalid : bool;
  can_encrypt : bool;
  can_sign : bool;
  uids : list UserID
}.

(** [gpg.errors]: the engine's exception and the three error codes
    [get_key] compares against (values of libgpg-error). *)
Module errors.
Record GPGMEError := mkGPGMEError { message : string; code : Z }.
Definition getcode (e : GPGMEError) : Z := code e.

(** What a call of the binding raises: a [GPGMEError], or an exception of
    any other class (BadSignatures, KeyNotFound, ...; given by the name of
    its class), which a clause [except gpg.errors.GPGMEError] does not
    catch. *)
Inductive GpgError :=
| GPGME (e : GPGMEError)
| NotGPGME (name : string).
Definition GENERAL : Z := 1.
Definition BAD_SIGNATURE : Z := 8.
Definition INV_VALUE : Z := 55.
Definition AMBIGUOUS_NAME : Z := 107.
Definition DECRYPT_FAILED : Z := 152.
Definition EOF : Z := 16383.
End errors.

(** Modelled from the spec: [alot/errors.py] (the classes [GPGCode] and
    [GPGProblem]) is not part of the sources.  [GPGCode] lists the codes that
    [crypto.py] names; section 7 of the specification gives the same
    enumeration and adds [Other] for everything else. *)
Module GPGCode.
Inductive t :=
| AMBIGUOUS_NAME
| NOT_FOUND
| KEY_REVOKED
| KEY_EXPIRED
| KEY_INVALID
| KEY_CANNOT_ENCRYPT
| KEY_CANNOT_SIGN.
End GPGCode.

(** Modelled from the spec: the values of the constants of [GPGCode] are
    in [alot/errors.py], which is not part of the sources.  They are a
    parameter of the development: [Code c] is the value of the constant [c],
    an integer as the engine's [e.code] is, and the constants of the
    enumeration are pairwise distinct. *)
Class GPGCode_values := {
  Code : GPGCode.t -> Z;
  Code_inj : forall a b, Code a = Code b -> a = b
}.

(** Modelled from the spec: [GPGProblem] of [alot/errors.py], an exception
    with a message and a code.  The [code] attribute holds what the [raise]
    statement passes: the value of a [GPGCode] constant, or the engine's
    [e.code], both plain integers. *)
Record GPGProblem := mkGPGProblem {
  problem_message : string;
  problem_code : Z
}.

(** The error kinds of section 7 of the specification. *)
Inductive Kind :=
| KeyRevoked | KeyExpired | KeyInvalid | KeyCannotEncrypt | KeyCannotSign
| AmbiguousName | NotFound | Other.

(** The kind that goes with a constant of [GPGCode]. *)
Definition kind_of_GPGCode (c : GPGCode.t) : Kind :=
  match c with
  | GPGCode.KEY_REVOKED => KeyRevoked
  | GPGCode.KEY_EXPIRED => KeyExpired
  | GPGCode.KEY_INVALID => KeyInvalid
  | GPGCode.KEY_CANNOT_ENCRYPT => KeyCannotEncrypt
  | GPGCode.KEY_CANNOT_SIGN => KeyCannotSign
  | GPGCode.AMBIGUOUS_NAME => AmbiguousName
  | GPGCode.NOT_FOUND => NotFound
  end.

(** The kind of a code: the kind of the constant whose value it is, and
    [Other] when it is the value of none. *)
Definition kind_of_code `{codes : GPGCode_values} (c : Z) : Kind :=
  if c =? Code GPGCode.KEY_REVOKED then KeyRevoked
  else if c =? Code GPGCode.KEY_EXPIRED then KeyExpired
  else if c =? Code GPGCode.KEY_INVALID then KeyInvalid
  else if c =? Code GPGCode.KEY_CANNOT_ENCRYPT then KeyCannotEncrypt
  else if c =? Code GPGCode.KEY_CANNOT_SIGN then KeyCannotSign
  else if c =? Code GPGCode.AMBIGUOUS_NAME then AmbiguousName
  else if c =? Code GPGCode.NOT_FOUND then NotFound
  else Other.

Definition kind `{codes : GPGCode_values} (p : GPGProblem) : Kind :=
  kind_of_code (problem_code p).

Definition is_validation_kind (k : Kind) : bool :=
  match k with
  | KeyRevoked | KeyExpired | KeyInvalid | KeyCannotEncrypt | KeyCannotSign => true
  | _ => false
  end.

(** ** Exceptions and the error monad *)

Inductive exn :=
| GPGProblem_exn (p : GPGProblem)
| GPGMEError_exn (e : errors.GPGMEError)
| IndexError
| AttributeError
| GpgError_exn (name : string).

Inductive result (A : Type) :=
| Return (a : A)
| Raise (e : exn).
Arguments Return {A} a.
Arguments Raise {A} e.

Definition bind {A B} (m : result A) (f : A -> result B) : result B :=
  match m with
  | Return a => f a
  | Raise e => Raise e
  end.

Notation "x <- m ;; k" := (bind m (fun x => k))
  (at level 61, m at next level, right associativity).
Notation "m ;;; k" := (bind m (fun _ => k))
  (at level 61, right associativity).

(** The exception that leaves a call of the binding. *)
Definition raised (e : errors.GpgError) : exn :=
  match e with
  | errors.GPGME e => GPGMEError_exn e
  | errors.NotGPGME name => GpgError_exn name
  end.

(** A call into the binding: it returns, or what the binding raises is
    raised. *)
Definition call {A} (r : errors.GpgError + A) : result A :=
  match r with
  | inl e => Raise (raised e)
  | inr a => Return a
  end.

(** [raise GPGProblem(message, code=c)] *)
Definition raise_GPGProblem {A} (msg : string) (c : Z) : result A :=
  Raise (GPGProblem_exn (mkGPGProblem msg c)).

(** ** The Key Validator: [validate_key] and [check_uid_validity] *)

(** [key.uids[0].uid]: indexing an empty sequence raises [IndexError]. *)
Definition uids_0_uid (key : Key) : result string :=
  match uids key with
  | [] => Raise IndexError
  | u :: _ => Return (uid u)
  end.

(** [validate_key(key, sign=False, encrypt=False)].  The message of every
    failing branch is built before the exception is. *)
Definition validate_key `{codes : GPGCode_values} (key : Key) (sign encrypt : bool)
  : result unit :=
  (if revoked key then
     u <- uids_0_uid key ;;
     raise_GPGProblem ("The key " ++ dquote ++ u ++ dquote ++ " is revoked.")
                      (Code GPGCode.KEY_REVOKED)
   else if expired key then
     u <- uids_0_uid key ;;
     raise_GPGProblem ("The key " ++ dquote ++ u ++ dquote ++ " is expired.")
                      (Code GPGCode.KEY_EXPIRED)
   else if invalid key then
     u <- uids_0_uid key ;;
     raise_GPGProblem ("The key " ++ dquote ++ u ++ dquote ++ " is invalid.")
                      (Code GPGCode.KEY_INVALID)
   else Return tt) ;;;
  (if encrypt && negb (can_encrypt key) then
     u <- uids_0_uid key ;;
     raise_GPGProblem ("The key " ++ dquote ++ u ++ dquote ++ " can not " ++ "encrypt.")
                      (Code GPGCode.KEY_CANNOT_ENCRYPT)
   else Return tt) ;;;
  (if sign && negb (can_sign key) then
     u <- uids_0_uid key ;;
     raise_GPGProblem ("The key " ++ dquote ++ u ++ dquote ++ " can not sign.")
                      (Code GPGCode.KEY_CANNOT_SIGN)
   else Return tt).

(** The test of one user id in the loop of [check_uid_validity]. *)
Definition uid_trusted_for (email_ : string) (key_uid : UserID) : bool :=
  String.eqb email_ (email key_uid)
  && negb (uid_revoked key_uid)
  && negb (uid_invalid key_uid)
  && (4 <=? validity key_uid).

(** The [for key_uid in key.uids] loop: [True] at the first user id that
    passes, [False] when the sequence is exhausted. *)
Fixpoint check_uids (key_uids : list UserID) (email_ : string) : bool :=
  match key_uids with
  | [] => false
  | key_uid :: rest =>
      if uid_trusted_for email_ key_uid then true else check_uids rest email_
  end.

Definition check_uid_validity (key : Key) (email_ : string) : bool :=
  check_uids (uids key) email_.

(** ** The engine adapter: the [gpg] binding *)

Inductive sig_mode := SIG_MODE_NORMAL | SIG_MODE_DETACH | SIG_MODE_CLEAR.

(** The attributes of a [gpg.Context] that the module sets: [armor] and
    [signers] (empty means the engine's default signer). *)
Record gpg_Context := mk_Context {
  armor : bool;
  signers : list Key
}.

(** [gpg.Context()] *)
Definition new_Context : gpg_Context := mk_Context false [].
Definition set_armor (ctx : gpg_Context) (b : bool) : gpg_Context :=
  mk_Context b (signers ctx).
Definition set_signers (ctx : gpg_Context) (ks : list Key) : gpg_Context :=
  mk_Context (armor ctx) ks.

Section Crypto.

(** The result objects of the engine are opaque to the module. *)
Context {Signature NewSignature EncryptResult DecryptResult : Type}.

Record SignResult := mkSignResult { sign_signatures : list NewSignature }.
Record VerifyResult := mkVerifyResult { verify_signatures : list Signature }.

(** The calls the module makes on the binding.  Each either returns or
    raises an exception of [gpg.errors], a [GPGMEError] or one of another
    class; [hash_algo_name] returns [None] for an algorithm the engine does
    not know. *)
Record Engine := mkEngine {
  ctx_get_key : gpg_Context -> string -> errors.GpgError + Key;
  ctx_keylist : gpg_Context -> option string -> bool -> errors.GpgError + list Key;
  ctx_sign : gpg_Context -> string -> sig_mode ->
             errors.GpgError + (string * SignResult);
  ctx_encrypt : gpg_Context -> string -> option (list Key) -> bool ->
                errors.GpgError + (string * EncryptResult * option SignResult);
  ctx_verify : gpg_Context -> string -> string ->
               errors.GpgError + (string * VerifyResult);
  ctx_decrypt : gpg_Context -> string -> bool ->
                errors.GpgError + (string * DecryptResult * VerifyResult);
  hash_algo_name : Z -> option string
}.

Context `{codes : GPGCode_values}.
Variable gpg : Engine.

(** ** Micalg mapping *)

(** [RFC3156_micalg_from_algo(hash_algo)]; [None.lower()] raises
    [AttributeError]. *)
Definition RFC3156_micalg_from_algo (hash_algo : Z) : result string :=
  match hash_algo_name gpg hash_algo with
  | Some hash_algo' => Return ("pgp-" ++ lower hash_algo')
  | None => Raise AttributeError
  end.

(** ** The Key Resolver *)

(** [list_keys(hint=None, private=False)] *)
Definition list_keys (hint : option string) (private : bool) : result (list Key) :=
  let ctx := new_Context in
  call (ctx_keylist gpg ctx hint private).

(** The [for k in keys] loop of [get_key]; [valid_key] is the loop
    variable of that name ([None] until a key passes; key objects are
    truthy).  Only a [GPGProblem] raised by [validate_key] is caught. *)
Fixpoint get_key_loop (encrypt sign : bool) (keys : list Key)
         (valid_key : option Key) : result (option Key) :=
  match keys with
  | [] => Return valid_key
  | k :: rest =>
      match validate_key k sign encrypt with
      | Raise (GPGProblem_exn _) => get_key_loop encrypt sign rest valid_key
      | Raise e => Raise e
      | Return _ =>
          match valid_key with
          | Some _ =>
              raise_GPGProblem
                ("More than one key found matching " ++
                 "this filter. Please be more " ++
                 "specific (use a key ID like " ++
                 "4AC8EE1D).")
                (Code GPGCode.AMBIGUOUS_NAME)
          | None => get_key_loop encrypt sign rest (Some k)
          end
      end
  end.

(** The [except gpg.errors.GPGMEError as e] handler of [get_key]: every
    branch leaves the function. *)
Definition get_key_except (keyid : string) (encrypt sign : bool)
           (e : errors.GPGMEError) : result Key :=
  if errors.getcode e =? errors.AMBIGUOUS_NAME then
    keys <- list_keys (Some keyid) false ;;
    valid_key <- get_key_loop encrypt sign keys None ;;
    match valid_key with
    | None =>
        raise_GPGProblem ("Can not find usable key for '" ++ keyid ++ "'.")
                         (Code GPGCode.NOT_FOUND)
    | Some k => Return k
    end
  else if (errors.getcode e =? errors.INV_VALUE) || (errors.getcode e =? errors.EOF) then
    raise_GPGProblem ("Can not find key for '" ++ keyid ++ "'.")
                     (Code GPGCode.NOT_FOUND)
  else Raise (GPGMEError_exn e).

(** [get_key(keyid, validate=False, encrypt=False, sign=False,
    signed_only=False)] *)
Definition get_key (keyid : string) (validate encrypt sign signed_only : bool)
  : result Key :=
  let ctx := new_Context in
  match (key <- call (ctx_get_key gpg ctx keyid) ;;
         (if validate then validate_key key sign encrypt else Return tt) ;;;
         Return key) with
  | Raise (GPGMEError_exn e) => get_key_except keyid encrypt sign e
  | Raise other => Raise other
  | Return key =>
      if signed_only && negb (check_uid_validity key keyid) then
        raise_GPGProblem ("Can not find a trusworthy key for '" ++ keyid ++ "'.")
                         (Code GPGCode.NOT_FOUND)
      else Return key
  end.

(** ** Crypto operations *)

(** [detached_signature_for(plaintext_str, key=None)] *)
Definition detached_signature_for (plaintext_str : string) (key : option Key)
  : result (list NewSignature * string) :=
  let ctx := mk_Context true [] in
  let ctx := match key with
             | Some k => set_signers ctx [k]
             | None => ctx
             end in
  r <- call (ctx_sign gpg ctx plaintext_str SIG_MODE_DETACH) ;;
  let '(sigblob, sign_result) := r in
  Return (sign_signatures sign_result, sigblob).

(** [encrypt(plaintext_str, keys=None)] *)
Definition encrypt (plaintext_str : string) (keys : option (list Key))
  : result string :=
  let ctx := new_Context in
  let ctx := set_armor ctx true in
  r <- call (ctx_encrypt gpg ctx plaintext_str keys true) ;;
  let '(out, encrypt_result, _) := r in
  Return out.

(** [verify_detached(message, signature)]: the [except] clause catches a
    [GPGMEError] only. *)
Definition verify_detached (message signature : string)
  : result (list Signature) :=
  let ctx := new_Context in
  match call (ctx_verify gpg ctx message signature) with
  | Return (_, verify_results) => Return (verify_signatures verify_results)
  | Raise (GPGMEError_exn e) => raise_GPGProblem (errors.message e) (errors.code e)
  | Raise other => Raise other
  end.

(** [decrypt_verify(encrypted)]: the [except] clause catches a [GPGMEError]
    only. *)
Definition decrypt_verify (encrypted : string)
  : result (list Signature * string) :=
  let ctx := new_Context in
  match call (ctx_decrypt gpg ctx encrypted true) with
  | Return (plaintext, _, verify_result) =>
      Return (verify_signatures verify_result, plaintext)
  | Raise (GPGMEError_exn e) => raise_GPGProblem (errors.message e) (errors.getcode e)
  | Raise other => Raise other
  end.

End Crypto.

Arguments Engine : clear implicits.
Arguments SignResult : clear implicits.
Arguments VerifyResult : clear implicits.

(** ** The specification's reading of the validator *)

(** The five checks of section 4.1 in their order: the kind of the first
    check that fails, [None] when all pass. *)
Definition validate_spec (key : Key) (needSign needEncrypt : bool) : option Kind :=
  if revoked key then Some KeyRevoked
  else if expired key then Some KeyExpired
  else if invalid key then Some KeyInvalid
  else if needEncrypt && negb (can_encrypt key) then Some KeyCannotEncrypt
  else if needSign && negb (can_sign key) then Some KeyCannotSign
  else None.

(** Some check of the validator fails: the key is revoked, expired or
    invalid, or lacks a capability that is asked for. *)
Definition fails (key : Key) (needSign needEncrypt : bool) : bool :=
  revoked key || expired key || invalid key
  || (needEncrypt && negb (can_encrypt key))
  || (needSign && negb (can_sign key)).

(** The code and the tail of the message that go with a kind of
    [validate_spec]. *)
Definition failure_code `{codes : GPGCode_values} (k : Kind) : Z :=
  match k with
  | KeyRevoked => Code GPGCode.KEY_REVOKED
  | KeyExpired => Code GPGCode.KEY_EXPIRED
  | KeyInvalid => Code GPGCode.KEY_INVALID
  | KeyCannotEncrypt => Code GPGCode.KEY_CANNOT_ENCRYPT
  | KeyCannotSign => Code GPGCode.KEY_CANNOT_SIGN
  | AmbiguousName => Code GPGCode.AMBIGUOUS_NAME
  | NotFound => Code GPGCode.NOT_FOUND
  | Other => 0
  end.

Definition failure_text (k : Kind) : string :=
  match k with
  | KeyRevoked => " is revoked."
  | KeyExpired => " is expired."
  | KeyInvalid => " is invalid."
  | KeyCannotEncrypt => " can not encrypt."
  | KeyCannotSign => " can not sign."
  | _ => ""
  end.

(** A candidate survives the loop of [get_key] when [validate_key]
    returns. *)
Definition passes `{codes : GPGCode_values} (sign encrypt : bool) (k : Key) : bool :=
  match validate_key k sign encrypt with
  | Return _ => true
  | Raise _ => false
  end.

(** Classification of outcomes. *)
Definition raised_kind `{codes : GPGCode_values} {A} (r : result A) : option Kind :=
  match r with
  | Raise (GPGProblem_exn p) => Some (kind p)
  | _ => None
  end.

Definition raises_validation_kind `{codes : GPGCode_values} {A} (r : result A) : bool :=
  match raised_kind r with
  | Some k => is_validation_kind k
  | None => false
  end.

(** Every failure is a [GPGProblem]. *)
Definition structured {A} (r : result A) : bool :=
  match r with
  | Return _ | Raise (GPGProblem_exn _) => true
  | Raise _ => false
  end.

(** Every failure is a [GPGProblem] or the index fault of [validate_key]. *)
Definition structured_or_index {A} (r : result A) : bool :=
  match r with
  | Return _ | Raise (GPGProblem_exn _) | Raise IndexError => true
  | Raise _ => false
  end.

(** The specification's lower case, letter by letter: the 26 capitals have
    their small letter, every other character is kept. *)
Definition lowercase_letter (c : ascii) : ascii :=
  match c with
  | "A" => "a" | "B" => "b" | "C" => "c" | "D" => "d" | "E" => "e"
  | "F" => "f" | "G" => "g" | "H" => "h" | "I" => "i" | "J" => "j"
  | "K" => "k" | "L" => "l" | "M" => "m" | "N" => "n" | "O" => "o"
  | "P" => "p" | "Q" => "q" | "R" => "r" | "S" => "s" | "T" => "t"
  | "U" => "u" | "V" => "v" | "W" => "w" | "X" => "x" | "Y" => "y"
  | "Z" => "z"
  | _ => c
  end%char.

Fixpoint lowercase (s : string) : string :=
  match s with
  | EmptyString => EmptyString
  | String c r => String (lowercase_letter c) (lowercase r)
  end.

(** ** Sample keys and engines *)

(** A table of codes for the concrete runs; the theorems are stated for
    every table. *)
Definition sample_Code (c : GPGCode.t) : Z :=
  match c with
  | GPGCode.AMBIGUOUS_NAME => 1
  | GPGCode.NOT_FOUND => 2
  | GPGCode.KEY_REVOKED => 3
  | GPGCode.KEY_EXPIRED => 4
  | GPGCode.KEY_INVALID => 5
  | GPGCode.KEY_CANNOT_ENCRYPT => 6
  | GPGCode.KEY_CANNOT_SIGN => 7
  end.

Lemma sample_Code_inj (a b : GPGCode.t) : sample_Code a = sample_Code b -> a = b.
Proof. destruct a, b; simpl; intros H; try reflexivity; discriminate H. Qed.

#[global] Instance sample_codes : GPGCode_values :=
  {| Code := sample_Code; Code_inj := sample_Code_inj |}.

Definition alice : UserID := mkUserID "Alice <a@b.com>" "a@b.com" false false 4.
Definition alice_marginal : UserID := mkUserID "Alice <a@b.com>" "a@b.com" false false 3.
Definition carol : UserID := mkUserID "Carol <c@d.org>" "c@d.org" false false 5.

Definition good_key : Key := mkKey "F00D" false false false true true [alice].
Definition other_good_key : Key := mkKey "BEEF" false false false true true [carol].
Definition expired_key : Key := mkKey "E0E0" false true false true true [alice].
Definition invalid_key : Key := mkKey "1111" false false true true true [carol].
Definition sign_only_key : Key := mkKey "5160" false false false false true [alice].
Definition revoked_key : Key := mkKey "DEAD" true false false false true [alice].
Definition marginal_key : Key := mkKey "3333" false false false true true [alice_marginal].
Definition bare_good_key : Key := mkKey "0001" false false false true true [].
Definition bare_revoked_key : Key := mkKey "0000" true false false false true [].

Definition ambiguous : errors.GPGMEError :=
  errors.mkGPGMEError "Ambiguous name" errors.AMBIGUOUS_NAME.
Definition general_error : errors.GPGMEError :=
  errors.mkGPGMEError "General error" errors.GENERAL.
Definition bad_signature : errors.GPGMEError :=
  errors.mkGPGMEError "Bad signature" errors.BAD_SIGNATURE.
Definition decrypt_failed : errors.GPGMEError :=
  errors.mkGPGMEError "Decryption failed" errors.DECRYPT_FAILED.

(** An engine with a fixed answer to the lookup and to the listing; it signs
    by prefixing, knows SHA1 (2) and SHA256 (8), and cannot decrypt. *)
Definition sample_engine (lookup : errors.GPGMEError + Key) (listing : list Key)
  : Engine string string unit unit :=
  mkEngine
    (fun _ _ => match lookup with
                | inl e => inl (errors.GPGME e)
                | inr key => inr key
                end)
    (fun _ _ _ => inr listing)
    (fun _ plaintext _ => inr ("sig:" ++ plaintext, mkSignResult ["new"]))
    (fun _ plaintext _ _ => inr ("-----BEGIN PGP MESSAGE-----" ++ plaintext, tt, None))
    (fun _ message signature =>
       if String.eqb signature ("sig:" ++ message)
       then inr ("", mkVerifyResult ["good"])
       else inl (errors.GPGME bad_signature))
    (fun _ _ _ => inl (errors.GPGME decrypt_failed))
    (fun h => if h =? 8 then Some "SHA256" else if h =? 2 then Some "SHA1" else None).

(** An engine whose every call fails with [general_error]. *)
Definition failing_engine : Engine string string unit unit :=
  mkEngine
    (fun _ _ => inl (errors.GPGME general_error))
    (fun _ _ _ => inl (errors.GPGME general_error))
    (fun _ _ _ => inl (errors.GPGME general_error))
    (fun _ _ _ _ => inl (errors.GPGME general_error))
    (fun _ _ _ => inl (errors.GPGME general_error))
    (fun _ _ _ => inl (errors.GPGME general_error))
    (fun _ => None).

(** An engine that reports a signature that does not verify the way the
    binding does: by an exception of the class BadSignatures, which is not a
    [GPGMEError]. *)
Definition bad_signatures_engine : Engine string string unit unit :=
  mkEngine
    (fun _ _ => inl (errors.NotGPGME "KeyNotFound"))
    (fun _ _ _ => inr [])
    (fun _ plaintext _ => inr ("sig:" ++ plaintext, mkSignResult ["new"]))
    (fun _ plaintext _ _ => inr ("-----BEGIN PGP MESSAGE-----" ++ plaintext, tt, None))
    (fun _ message signature =>
       if String.eqb signature ("sig:" ++ message)
       then inr ("", mkVerifyResult ["good"])
       else inl (errors.NotGPGME "BadSignatures"))
    (fun _ _ _ => inl (errors.NotGPGME "BadSignatures"))
    (fun _ => None).

(** An engine that encrypts by prefixing "ENC:" and decrypts by removing the
    prefix; it signs and verifies as [sample_engine] does. *)
Definition prefix_engine : Engine string string unit unit :=
  mkEngine
    (fun _ _ => inl (errors.GPGME general_error))
    (fun _ _ _ => inr [])
    (fun _ plaintext _ => inr ("sig:" ++ plaintext, mkSignResult ["new"]))
    (fun _ plaintext _ _ => inr ("ENC:" ++ plaintext, tt, None))
    (fun _ message signature =>
       if String.eqb signature ("sig:" ++ message)
       then inr ("", mkVerifyResult ["good"])
       else inl (errors.GPGME bad_signature))
    (fun _ encrypted _ =>
       if String.prefix "ENC:" encrypted
       then inr (String.substring 4 (String.length encrypted - 4) encrypted,
                 tt, mkVerifyResult [])
       else inl (errors.GPGME decrypt_failed))
    (fun _ => None).

(** * alot/buffer.py: key dispatch and the list of buffers

    The widgets of [urwid], the command factory and the user interface are
    collaborators of the module: what the module asks of them is recorded as
    a trace of events, what they answer is a parameter. *)

(** ** Python values of the module *)

(** The position that [get_focus()] of a list box answers: an integer, or
    [None]. *)
Inductive pyvalue := PyNone | PyInt (n : Z).

Inductive buffer_exn := ZeroDivisionError | TypeError | ValueError | AttributeError_.

Inductive outcome (A : Type) :=
| Done (a : A)
| Fault (e : buffer_exn).
Arguments Done {A} a.
Arguments Fault {A} e.

(** [focusposition % n] for a length [n]: the left operand must be a
    number, the right one must not be zero; the result has the sign of
    [n]. *)
Definition py_mod (v : pyvalue) (n : Z) : outcome Z :=
  match v with
  | PyNone => Fault TypeError
  | PyInt a => if n =? 0 then Fault ZeroDivisionError else Done (a mod n)
  end.

Fixpoint spaces (n : nat) : string :=
  match n with
  | O => EmptyString
  | S m => String " "%char (spaces m)
  end.

(** ['%3d:' % n] for an index [n]: the decimal digits, right-justified in
    three columns, and a colon. *)
Definition fmt_3d_colon (n : nat) : string :=
  let digits := DecimalString.NilZero.string_of_uint (Nat.to_uint n) in
  spaces (3 - String.length digits) ++ digits ++ ":".

Section Buffers.

(** Buffers (compared by [==], the identity of the object), the keyword
    arguments of a command, commands, the size and the answer of a
    widget. *)
Context {B Parms Cmd Size Ret : Type}.
Variable B_eqb : B -> B -> bool.

(** ** [Buffer.keypress] *)

(** What a buffer asks of its collaborators. *)
Inductive event :=
| logger_debug (msg : string)
| ui_apply_command (cmd : Cmd)
| original_widget_keypress (size : Size) (key : string).

(** [self.bindings]: a dict from keys to pairs [(cmdname, parms)]. *)
Definition bindings_t := list (string * (string * Parms)).

Fixpoint bindings_get (bindings : bindings_t) (key : string) : option (string * Parms) :=
  match bindings with
  | [] => None
  | (k, v) :: rest => if String.eqb key k then Some v else bindings_get rest key
  end.

(** [command.factory(cmdname, **parms)] and the answer of
    [self.original_widget.keypress(size, key)]. *)
Variable factory : string -> Parms -> Cmd.
Variable widget_answer : Size -> string -> Ret.

(** The [if key == 'j': ... elif ...] chain of [keypress]. *)
Definition vi_key (key : string) : string :=
  if String.eqb key "j" then "down"
  else if String.eqb key "k" then "up"
  else if String.eqb key "h" then "left"
  else if String.eqb key "l" then "right"
  else if String.eqb key " " then "page down"
  else key.

(** [Buffer.keypress(self, size, key)]: the events, and the value returned
    ([None] when the method falls off its end). *)
Definition Buffer_keypress (typename : string) (bindings : bindings_t)
           (size : Size) (key : string) : list event * option Ret :=
  match bindings_get bindings key with
  | Some (cmdname, parms) =>
      let cmd := factory cmdname parms in
      ([logger_debug (typename ++ ": handeles key: " ++ key); ui_apply_command cmd], None)
  | None =>
      let key := vi_key key in
      ([original_widget_keypress size key], Some (widget_answer size key))
  end.

Definition asks_widget (ev : event) : bool :=
  match ev with original_widget_keypress _ _ => true | _ => false end.

Definition applies_command (ev : event) : bool :=
  match ev with ui_apply_command _ => true | _ => false end.

Definition is_vi_key (key : string) : bool :=
  String.eqb key "j" || String.eqb key "k" || String.eqb key "h"
  || String.eqb key "l" || String.eqb key " ".

(** ** [BufferListBuffer] *)

(** A line of the list: [urwid.Columns([('fixed', 4, urwid.Text(label)),
    urwid.AttrMap(widgets.BufferlineWidget(b), attr, focus_attr)])]. *)
Record Line := mkLine {
  line_label : string;
  line_buffer : B;
  line_attr : string;
  line_focus_attr : string
}.

(** [urwid.ListBox(urwid.SimpleListWalker(lines))], with the positions
    passed to [set_focus], latest first. *)
Record ListBox := mkListBox {
  body : list Line;
  set_focus_calls : list Z
}.

(** What [self.bufferlist.get_focus()[1]] answers. *)
Variable get_focus_position : ListBox -> pyvalue.

(** The attributes of a [BufferListBuffer] that [rebuild] reads and writes;
    [bufferlist] is absent until the first [rebuild] sets it. *)
Record BufferListBuffer := mkBufferListBuffer {
  filtfun : option (B -> bool);
  ui_buffers : list B;
  isinitialized : bool;
  bufferlist : option ListBox
}.

(** [filter(filtfun, seq)]: with [None] the true elements are kept, and
    buffer objects are true. *)
Definition py_filter (f : option (B -> bool)) (seq : list B) : list B :=
  match f with
  | Some f => filter f seq
  | None => seq
  end.

(** [seq.index(b)]: the first position of an element equal to [b];
    [ValueError] when there is none. *)
Fixpoint list_index (seq : list B) (b : B) : outcome nat :=
  match seq with
  | [] => Fault ValueError
  | x :: rest =>
      if B_eqb x b then Done O
      else match list_index rest b with
           | Done i => Done (S i)
           | Fault e => Fault e
           end
  end.

(** [BufferListBuffer.index_of(self, b)] *)
Definition index_of (self : BufferListBuffer) (b : B) : outcome nat :=
  list_index (ui_buffers self) b.

(** The [for (num, b) in enumerate(displayedbuffers)] loop of [rebuild],
    from the count [num] on. *)
Fixpoint rebuild_lines (self : BufferListBuffer) (num : nat) (displayedbuffers : list B)
  : outcome (list Line) :=
  match displayedbuffers with
  | [] => Done []
  | b :: rest =>
      let attr := if Nat.eqb (num mod 2) 0 then "bufferlist_results_even"
                  else "bufferlist_results_odd" in
      match index_of self b with
      | Fault e => Fault e
      | Done i =>
          match rebuild_lines self (S num) rest with
          | Fault e => Fault e
          | Done lines => Done (mkLine (fmt_3d_colon i) b attr "bufferlist_focus" :: lines)
          end
      end
  end.

(** [BufferListBuffer.rebuild(self)]: the object after the call, and whether
    the call returned. *)
Definition BufferListBuffer_rebuild (self : BufferListBuffer)
  : BufferListBuffer * outcome unit :=
  let start :=
    if isinitialized self then
      match bufferlist self with
      | Some bl => (self, Done (get_focus_position bl))
      | None => (self, Fault AttributeError_)
      end
    else
      (mkBufferListBuffer (filtfun self) (ui_buffers self) true (bufferlist self),
       Done (PyInt 0)) in
  match start with
  | (self, Fault e) => (self, Fault e)
  | (self, Done focusposition) =>
      let displayedbuffers := py_filter (filtfun self) (ui_buffers self) in
      match rebuild_lines self O displayedbuffers with
      | Fault e => (self, Fault e)
      | Done lines =>
          let bl := mkListBox lines [] in
          let self := mkBufferListBuffer (filtfun self) (ui_buffers self)
                                         (isinitialized self) (Some bl) in
          match py_mod focusposition (Z.of_nat (List.length displayedbuffers)) with
          | Fault e => (self, Fault e)
          | Done p =>
              (mkBufferListBuffer (filtfun self) (ui_buffers self) (isinitialized self)
                                  (Some (mkListBox lines [p])),
               Done tt)
          end
      end
  end.

(** The value of [focusposition] in [rebuild], when its first statement
    does not fault. *)
Definition rebuild_focusposition (self : BufferListBuffer) : option pyvalue :=
  if isinitialized self then
    match bufferlist self with
    | Some bl => Some (get_focus_position bl)
    | None => None
    end
  else Some (PyInt 0).

(** The object when [BufferListBuffer.__init__] calls [rebuild]. *)
Definition BufferListBuffer_new (ui_buffers_ : list B) (filtfun_ : option (B -> bool))
  : BufferListBuffer :=
  mkBufferListBuffer filtfun_ ui_buffers_ false None.

End Buffers.

Arguments event : clear implicits.
Arguments Line : clear implicits.
Arguments ListBox : clear implicits.
Arguments BufferListBuffer : clear implicits.

(** The bindings of [BufferListBuffer], with the names of the bound methods
    as keyword arguments. *)
Definition bufferlist_bindings : bindings_t (Parms := list (string * string)) :=
  [ ("d", ("buffer_close", [("buffer", "get_selected_buffer")]));
    ("enter", ("buffer_focus", [("buffer", "get_selected_buffer")])) ].

(** A list box that answers the last position it was given, and [None] when
    it is empty. *)
Definition last_focus (bl : ListBox nat) : pyvalue :=
  match body bl, set_focus_calls bl with
  | [], _ => PyNone
  | _, p :: _ => PyInt p
  | _, [] => PyInt 0
  end.

(** * Properties *)

(** ** Strings *)

Lemma lower_ascii_no_upper (c : ascii) : is_upper (lower_ascii c) = false.
Proof.
  unfold is_upper, lower_ascii.
  destruct (Nat.leb 65 (nat_of_ascii c) && Nat.leb (nat_of_ascii c) 90)%bool eqn:E.
  - apply andb_true_iff in E as [E1 E2].
    apply Nat.leb_le in E1. apply Nat.leb_le in E2.
    rewrite nat_ascii_embedding by lia.
    apply andb_false_iff. right. apply Nat.leb_gt. lia.
  - exact E.
Qed.

Lemma lower_no_upper (s : string) : no_upper (lower s) = true.
Proof.
  induction s as [|c r IH]; simpl.
  - reflexivity.
  - now rewrite lower_ascii_no_upper, IH.
Qed.

Lemma lower_length (s : string) : String.length (lower s) = String.length s.
Proof. induction s as [|c r IH]; simpl; congruence. Qed.

(** ** Codes and kinds *)

(** The kind of the value of a constant is the kind of the constant: the
    values are pairwise distinct. *)
Lemma kind_of_code_Code `{codes : GPGCode_values} (c : GPGCode.t) :
  kind_of_code (Code c) = kind_of_GPGCode c.
Proof.
  unfold kind_of_code.
  repeat match goal with
         | |- context [Code c =? Code ?d] =>
             let E := fresh "E" in
             destruct (Z.eqb_spec (Code c) (Code d)) as [E | E];
             [apply Code_inj in E; subst c; reflexivity|]
         end.
  destruct c; congruence.
Qed.

(** A code has kind [Other] exactly when it is the value of no constant. *)
Lemma kind_of_code_Other `{codes : GPGCode_values} (z : Z) :
  kind_of_code z = Other <-> forall c, Code c <> z.
Proof.
  split.
  - intros Hk c E. subst z. rewrite kind_of_code_Code in Hk. now destruct c.
  - intros Hno. unfold kind_of_code.
    repeat match goal with
           | |- context [z =? Code ?d] =>
               let E := fresh "E" in
               destruct (Z.eqb_spec z (Code d)) as [E | E];
               [now elim (Hno d)|]
           end.
    reflexivity.
Qed.

Lemma kind_failure_code `{codes : GPGCode_values} (k : Kind) :
  k <> Other -> kind_of_code (failure_code k) = k.
Proof.
  destruct k; intros Hk; try exact (kind_of_code_Code _). now elim Hk.
Qed.

Ltac solve_kind :=
  unfold raised_kind, raise_GPGProblem, kind; cbn [problem_code failure_code];
  rewrite ?kind_of_code_Code; exact eq_refl.

(** ** The validator *)

(** [validate_key] on a key without user ids: the first failing check
    faults, on the index, before an exception of the module is built. *)
Lemma validate_key_bare `{codes : GPGCode_values} (key : Key) (sign encrypt : bool) :
  uids key = [] ->
  validate_key key sign encrypt =
  match validate_spec key sign encrypt with
  | Some _ => Raise IndexError
  | None => Return tt
  end.
Proof.
  intros Hu. unfold validate_key, validate_spec, uids_0_uid. rewrite Hu.
  destruct (revoked key), (expired key), (invalid key),
    (encrypt && negb (can_encrypt key))%bool, (sign && negb (can_sign key))%bool;
    reflexivity.
Qed.

(** [validate_key] on a key with a first user id [u]: the first failing
    check raises its [GPGProblem], whose message quotes [u.uid]. *)
Lemma validate_key_first `{codes : GPGCode_values} (key : Key) (sign encrypt : bool) (u : UserID) (rest : list UserID) :
  uids key = u :: rest ->
  validate_key key sign encrypt =
  match validate_spec key sign encrypt with
  | Some k =>
      raise_GPGProblem ("The key " ++ dquote ++ uid u ++ dquote ++ failure_text k)
                       (failure_code k)
  | None => Return tt
  end.
Proof.
  intros Hu. unfold validate_key, validate_spec, uids_0_uid. rewrite Hu.
  destruct (revoked key), (expired key), (invalid key),
    (encrypt && negb (can_encrypt key))%bool, (sign && negb (can_sign key))%bool;
    reflexivity.
Qed.

Lemma validate_spec_validation_kind (key : Key) (s e : bool) (k : Kind) :
  validate_spec key s e = Some k -> is_validation_kind k = true.
Proof.
  unfold validate_spec.
  destruct (revoked key), (expired key), (invalid key),
    (e && negb (can_encrypt key))%bool, (s && negb (can_sign key))%bool;
    intros H; inversion H; reflexivity.
Qed.

(** [passes] is the success of every check. *)
Lemma passes_spec `{codes : GPGCode_values} (key : Key) (s e : bool) :
  passes s e key = match validate_spec key s e with None => true | Some _ => false end.
Proof.
  unfold passes. destruct (uids key) as [|u rest] eqn:Hu.
  - rewrite (validate_key_bare _ _ _ Hu). now destruct (validate_spec key s e).
  - rewrite (validate_key_first _ _ _ _ _ Hu). now destruct (validate_spec key s e).
Qed.

Lemma fails_spec (key : Key) (s e : bool) :
  fails key s e = match validate_spec key s e with Some _ => true | None => false end.
Proof.
  unfold fails, validate_spec.
  destruct (revoked key), (expired key), (invalid key),
    (e && negb (can_encrypt key))%bool, (s && negb (can_sign key))%bool;
    reflexivity.
Qed.

(** C3: on a key that is revoked and cannot encrypt but has no user id,
    [validate_key] with encryption asked for does not raise the [GPGProblem]
    of kind [KeyRevoked] that its first check is written to raise: building
    the message from [key.uids[0]] faults with [IndexError] before. *)
Theorem validate_key_bare_revoked_no_kind :
  revoked bare_revoked_key = true /\
  can_encrypt bare_revoked_key = false /\
  validate_key bare_revoked_key false true = Raise IndexError /\
  ~ (exists p, validate_key bare_revoked_key false true = Raise (GPGProblem_exn p)
               /\ kind p = KeyRevoked).
Proof.
  repeat split.
  intros [p [H _]]. discriminate H.
Qed.

(** On a key with at least one user id the order of the checks is the one
    of the specification: revoked, expired, invalid, (encrypt and not
    can_encrypt), (sign and not can_sign); the first check that fails raises
    a [GPGProblem] of kind [KeyRevoked], [KeyExpired], [KeyInvalid],
    [KeyCannotEncrypt], [KeyCannotSign] respectively, and the call returns
    when none fails. *)
Lemma validate_key_order `{codes : GPGCode_values} (key : Key) (sign encrypt : bool) :
  uids key <> [] ->
  if revoked key then
    exists p, validate_key key sign encrypt = Raise (GPGProblem_exn p) /\ kind p = KeyRevoked
  else if expired key then
    exists p, validate_key key sign encrypt = Raise (GPGProblem_exn p) /\ kind p = KeyExpired
  else if invalid key then
    exists p, validate_key key sign encrypt = Raise (GPGProblem_exn p) /\ kind p = KeyInvalid
  else if encrypt && negb (can_encrypt key) then
    exists p, validate_key key sign encrypt = Raise (GPGProblem_exn p)
              /\ kind p = KeyCannotEncrypt
  else if sign && negb (can_sign key) then
    exists p, validate_key key sign encrypt = Raise (GPGProblem_exn p)
              /\ kind p = KeyCannotSign
  else validate_key key sign encrypt = Return tt.
Proof.
  intros Hne. destruct (uids key) as [|u rest] eqn:Hu; [now elim Hne|].
  rewrite (validate_key_first _ _ _ _ _ Hu). unfold validate_spec.
  destruct (revoked key); [eexists; split; [reflexivity | solve_kind]|].
  destruct (expired key); [eexists; split; [reflexivity | solve_kind]|].
  destruct (invalid key); [eexists; split; [reflexivity | solve_kind]|].
  destruct (encrypt && negb (can_encrypt key))%bool;
    [eexists; split; [reflexivity | solve_kind]|].
  destruct (sign && negb (can_sign key))%bool;
    [eexists; split; [reflexivity | solve_kind]|].
  reflexivity.
Qed.

(** A revoked key that cannot encrypt is reported as revoked. *)
Lemma validate_key_order_witness :
  uids revoked_key <> [] /\
  exists p, validate_key revoked_key false true = Raise (GPGProblem_exn p)
            /\ kind p = KeyRevoked.
Proof.
  split.
  - discriminate.
  - apply (validate_key_order revoked_key false true). discriminate.
Defined.

(** C10: every failing branch of [validate_key] builds its message from
    [key.uids[0]].  On a key without user ids a failing check (revoked,
    expired, invalid, or a missing capability that is asked for) faults with
    [IndexError] instead of raising a [GPGProblem], and a key that passes
    every check validates; on a key with a first user id the [GPGProblem]
    quotes its [uid]. *)
Theorem validate_key_first_uid `{codes : GPGCode_values} (key : Key) (sign encrypt : bool) :
  match uids key with
  | [] =>
      validate_key key sign encrypt =
      if fails key sign encrypt then Raise IndexError else Return tt
  | u :: _ =>
      if fails key sign encrypt then
        exists tail c,
          validate_key key sign encrypt =
          raise_GPGProblem ("The key " ++ dquote ++ uid u ++ dquote ++ tail) c
      else validate_key key sign encrypt = Return tt
  end.
Proof.
  destruct (uids key) as [|u rest] eqn:Hu.
  - rewrite (validate_key_bare _ _ _ Hu), fails_spec.
    now destruct (validate_spec key sign encrypt).
  - rewrite (validate_key_first _ _ _ _ _ Hu), fails_spec.
    destruct (validate_spec key sign encrypt) as [k|]; [|reflexivity].
    now exists (failure_text k), (failure_code k).
Qed.

Example validate_key_bare_revoked :
  validate_key bare_revoked_key false false = Raise IndexError.
Proof. reflexivity. Qed.

Example validate_key_bare_good :
  validate_key bare_good_key true true = Return tt.
Proof. reflexivity. Qed.

Example validate_key_sign_only :
  raised_kind (validate_key sign_only_key false true) = Some KeyCannotEncrypt /\
  validate_key sign_only_key true false = Return tt.
Proof. split; reflexivity. Qed.

(** ** Trust of a user id *)

Lemma uid_trusted_for_iff (email_ : string) (u : UserID) :
  uid_trusted_for email_ u = true <->
  email u = email_ /\ uid_revoked u = false /\ uid_invalid u = false /\ 4 <= validity u.
Proof.
  unfold uid_trusted_for.
  rewrite !andb_true_iff, !negb_true_iff, String.eqb_eq, Z.leb_le.
  intuition congruence.
Qed.

Lemma check_uids_existsb (key_uids : list UserID) (email_ : string) :
  check_uids key_uids email_ = existsb (uid_trusted_for email_) key_uids.
Proof.
  induction key_uids as [|u rest IH]; simpl.
  - reflexivity.
  - rewrite IH. now destruct (uid_trusted_for email_ u).
Qed.

(** The loop finds a user id that passes the test, wherever it stands. *)
Lemma check_uids_exists (key_uids : list UserID) (email_ : string) :
  check_uids key_uids email_ = true <->
  exists u, In u key_uids /\ email u = email_ /\ uid_revoked u = false
            /\ uid_invalid u = false /\ 4 <= validity u.
Proof.
  rewrite check_uids_existsb, existsb_exists.
  split; intros [u [Hin H]]; exists u; split; auto; now apply uid_trusted_for_iff.
Qed.

(** C4: [check_uid_validity] is true exactly when some user id anywhere in
    [key.uids] has an email equal to the given string, is neither revoked nor
    invalid, and has validity at least 4. *)
Theorem check_uid_validity_iff (key : Key) (email_ : string) :
  check_uid_validity key email_ = true <->
  exists u, In u (uids key) /\ email u = email_ /\ uid_revoked u = false
            /\ uid_invalid u = false /\ 4 <= validity u.
Proof. unfold check_uid_validity. apply check_uids_exists. Qed.

(** Equality of the email is exact: neither another case nor a part of the
    address is accepted; the threshold is 4; a later user id counts. *)
Example check_uid_validity_exact :
  check_uid_validity good_key "a@b.com" = true /\
  check_uid_validity good_key "A@B.COM" = false /\
  check_uid_validity good_key "a@b.co" = false /\
  check_uid_validity good_key "b.com" = false /\
  check_uid_validity (mkKey "F00D" false false false true true [alice_marginal])
                     "a@b.com" = false /\
  check_uid_validity (mkKey "F00D" false false false true true [alice_marginal; carol])
                     "a@b.com" = false /\
  check_uid_validity (mkKey "F00D" false false false true true [alice_marginal; carol])
                     "c@d.org" = true.
Proof. repeat split. Qed.

(** ** Micalg mapping *)

(** The [lower] of the code is the lower case of the specification. *)
Lemma lower_ascii_lowercase_letter (c : ascii) : lower_ascii c = lowercase_letter c.
Proof. destruct c as [[] [] [] [] [] [] [] []]; reflexivity. Qed.

Lemma lower_lowercase (s : string) : lower s = lowercase s.
Proof.
  induction s as [|c r IH]; simpl; [reflexivity|].
  now rewrite lower_ascii_lowercase_letter, IH.
Qed.

(** C7: when the engine names the hash algorithm,
    [RFC3156_micalg_from_algo] returns exactly "pgp-" followed by the name
    with each of the 26 capitals replaced by its small letter (pgp-sha256
    for SHA256); when the engine has no name for the algorithm the call
    fails and returns no value. *)
Theorem RFC3156_micalg_from_algo_spec
  {Sg NSg ER DR : Type} (gpg : Engine Sg NSg ER DR) (hash_algo : Z)
  (answer : option string) :
  hash_algo_name gpg hash_algo = answer ->
  match answer with
  | Some name =>
      RFC3156_micalg_from_algo gpg hash_algo = Return ("pgp-" ++ lowercase name)
  | None => exists e, RFC3156_micalg_from_algo gpg hash_algo = Raise e
  end.
Proof.
  intros <-. unfold RFC3156_micalg_from_algo.
  destruct (hash_algo_name gpg hash_algo) as [name|].
  - now rewrite lower_lowercase.
  - now exists AttributeError.
Qed.

(** The engine's SHA256 gives the literal pgp-sha256. *)
Lemma RFC3156_micalg_from_algo_spec_witness :
  hash_algo_name (sample_engine (inl general_error) []) 8 = Some "SHA256" /\
  RFC3156_micalg_from_algo (sample_engine (inl general_error) []) 8 = Return "pgp-sha256".
Proof.
  split; [reflexivity|].
  apply (RFC3156_micalg_from_algo_spec (sample_engine (inl general_error) []) 8
           (Some "SHA256")).
  reflexivity.
Defined.

Example micalg_sha256 :
  RFC3156_micalg_from_algo (sample_engine (inl general_error) []) 8 = Return "pgp-sha256".
Proof. reflexivity. Qed.

Example micalg_unknown :
  RFC3156_micalg_from_algo (sample_engine (inl general_error) []) 99 = Raise AttributeError.
Proof. reflexivity. Qed.

(** ** The resolver: the ambiguous path *)

Section Resolver.

Context {Sg NSg ER DR : Type}.
Context `{codes : GPGCode_values}.
Variable gpg : Engine Sg NSg ER DR.

(** A candidate on which [validate_key] does not fault either passes or
    raises a [GPGProblem]. *)
Lemma validate_key_cases (k : Key) (sign encrypt : bool) :
  (uids k = [] -> passes sign encrypt k = true) ->
  (validate_key k sign encrypt = Return tt /\ passes sign encrypt k = true) \/
  (exists p, validate_key k sign encrypt = Raise (GPGProblem_exn p)
             /\ passes sign encrypt k = false).
Proof.
  intros H. destruct (uids k) as [|u rest] eqn:Hu.
  - specialize (H eq_refl). left. split; [|exact H].
    rewrite passes_spec in H. rewrite (validate_key_bare _ _ _ Hu).
    now destruct (validate_spec k sign encrypt).
  - clear H. rewrite passes_spec, (validate_key_first _ _ _ _ _ Hu).
    destruct (validate_spec k sign encrypt) as [kd|].
    + right. eexists. split; [reflexivity | first [solve_kind | reflexivity]].
    + now left.
Qed.

(** The loop of [get_key] counts the survivors up to two. *)
Lemma get_key_loop_survivors (encrypt sign : bool) (keys : list Key) :
  (forall k, In k keys -> uids k = [] -> passes sign encrypt k = true) ->
  forall valid_key,
  match valid_key, filter (passes sign encrypt) keys with
  | None, [] => get_key_loop encrypt sign keys valid_key = Return None
  | None, [k] => get_key_loop encrypt sign keys valid_key = Return (Some k)
  | Some a, [] => get_key_loop encrypt sign keys valid_key = Return (Some a)
  | _, _ =>
      exists m, get_key_loop encrypt sign keys valid_key =
                raise_GPGProblem m (Code GPGCode.AMBIGUOUS_NAME)
  end.
Proof.
  induction keys as [|k rest IH]; intros Hk valid_key.
  - simpl. now destruct valid_key.
  - assert (Hrest : forall k', In k' rest -> uids k' = [] -> passes sign encrypt k' = true)
      by (intros k' Hin; apply Hk; now right).
    specialize (IH Hrest). simpl.
    destruct (validate_key_cases k sign encrypt (Hk k (or_introl eq_refl)))
      as [[Hv Hp] | [p [Hv Hp]]]; rewrite Hv, Hp.
    + destruct valid_key as [a|].
      * eexists. reflexivity.
      * specialize (IH (Some k)). simpl in IH.
        destruct (filter (passes sign encrypt) rest) as [|k2 rest2]; exact IH.
    + apply IH.
Qed.

(** With an ambiguous identifier [get_key] is its handler: the flags
    [validate] and [signed_only] are not read. *)
Lemma get_key_ambiguous_handler (keyid : string) (validate encrypt sign signed_only : bool)
      (e : errors.GPGMEError) :
  ctx_get_key gpg new_Context keyid = inl (errors.GPGME e) ->
  get_key gpg keyid validate encrypt sign signed_only =
  get_key_except gpg keyid encrypt sign e.
Proof. intros H. unfold get_key. now rewrite H. Qed.

End Resolver.

(** C1: when the only candidate of an ambiguous identifier is revoked and
    has no user id, no candidate passes the validation and yet [get_key]
    does not fail with [NotFound]: the loop, written to skip a key that is
    invalid for the action, catches a [GPGProblem] only, and the
    [IndexError] of [validate_key] leaves [get_key]. *)
Theorem get_key_ambiguous_bare_candidate :
  ctx_get_key (sample_engine (inl ambiguous) [bare_revoked_key]) new_Context "x"
    = inl (errors.GPGME ambiguous) /\
  filter (passes false true) [bare_revoked_key] = [] /\
  get_key (sample_engine (inl ambiguous) [bare_revoked_key]) "x" false true false false
    = Raise IndexError /\
  ~ (exists p,
       get_key (sample_engine (inl ambiguous) [bare_revoked_key]) "x" false true false false
         = Raise (GPGProblem_exn p) /\ kind p = NotFound).
Proof.
  repeat split.
  intros [p [H _]]. discriminate H.
Qed.

(** When the engine reports the identifier as ambiguous, the listing
    succeeds and every candidate that fails validation has at least one user
    id, [get_key] validates the candidates with the [sign] and [encrypt]
    flags (whatever [validate] is): with no survivor it fails with kind
    [NotFound], with exactly one it returns that key, with more than one it
    fails with kind [AmbiguousName]. *)
Lemma get_key_ambiguous `{codes : GPGCode_values}
  {Sg NSg ER DR : Type} (gpg : Engine Sg NSg ER DR)
  (keyid : string) (validate encrypt sign signed_only : bool)
  (e : errors.GPGMEError) (keys : list Key) :
  ctx_get_key gpg new_Context keyid = inl (errors.GPGME e) ->
  errors.getcode e = errors.AMBIGUOUS_NAME ->
  ctx_keylist gpg new_Context (Some keyid) false = inr keys ->
  (forall k, In k keys -> uids k = [] -> passes sign encrypt k = true) ->
  match filter (passes sign encrypt) keys with
  | [] =>
      exists p, get_key gpg keyid validate encrypt sign signed_only
                = Raise (GPGProblem_exn p) /\ kind p = NotFound
  | [k] => get_key gpg keyid validate encrypt sign signed_only = Return k
  | _ :: _ :: _ =>
      exists p, get_key gpg keyid validate encrypt sign signed_only
                = Raise (GPGProblem_exn p) /\ kind p = AmbiguousName
  end.
Proof.
  intros Hlookup Hcode Hlist Hkeys.
  rewrite (get_key_ambiguous_handler gpg _ _ _ _ _ _ Hlookup).
  unfold get_key_except, list_keys. rewrite Hcode, Hlist. simpl.
  pose proof (get_key_loop_survivors encrypt sign keys Hkeys None) as Hloop.
  destruct (filter (passes sign encrypt) keys) as [|k1 [|k2 rest]].
  - rewrite Hloop. eexists. split; [reflexivity | first [solve_kind | reflexivity]].
  - now rewrite Hloop.
  - destruct Hloop as [m Hm]. rewrite Hm. eexists. split; [reflexivity | first [solve_kind | reflexivity]].
Qed.

(** Two candidates, one expired and one valid for encryption: the valid one
    is returned. *)
Lemma get_key_ambiguous_witness :
  get_key (sample_engine (inl ambiguous) [expired_key; good_key]) "x" false true false false
  = Return good_key.
Proof.
  apply (get_key_ambiguous (sample_engine (inl ambiguous) [expired_key; good_key])
           "x" false true false false ambiguous [expired_key; good_key]
           eq_refl eq_refl eq_refl).
  intros k [<- | [<- | []]]; discriminate.
Defined.

Example get_key_ambiguous_two_valid :
  raised_kind (get_key (sample_engine (inl ambiguous) [good_key; other_good_key])
                 "x" false true false false) = Some AmbiguousName.
Proof. reflexivity. Qed.

Example get_key_ambiguous_none_valid :
  raised_kind (get_key (sample_engine (inl ambiguous) [expired_key; invalid_key])
                 "x" false true false false) = Some NotFound.
Proof. reflexivity. Qed.

(** The loop stops at the second survivor: a later candidate is not
    validated. *)
Example get_key_ambiguous_stops_early :
  raised_kind (get_key (sample_engine (inl ambiguous)
                          [good_key; other_good_key; bare_revoked_key])
                 "x" false true false false) = Some AmbiguousName.
Proof. reflexivity. Qed.

(** C2: on the ambiguous path the survivor is returned from inside the
    handler, before the [signed_only] test of [get_key] is reached.  Two keys
    match "a@b.com": one expired, one whose user id for that address has
    validity 3 only.  With [signed_only] set the second is returned although
    [check_uid_validity] is false for it; the same key found alone is
    refused with [NotFound]. *)
Theorem get_key_ambiguous_skips_trust_check :
  ctx_get_key (sample_engine (inl ambiguous) [expired_key; marginal_key]) new_Context "a@b.com"
    = inl (errors.GPGME ambiguous) /\
  check_uid_validity marginal_key "a@b.com" = false /\
  get_key (sample_engine (inl ambiguous) [expired_key; marginal_key])
          "a@b.com" true true false true = Return marginal_key /\
  raised_kind (get_key (sample_engine (inr marginal_key) [])
                 "a@b.com" true true false true) = Some NotFound.
Proof. repeat split. Qed.

(** ** The resolver: the single-key path *)

(** When the engine returns one key, [get_key] validates it if asked to and
    then applies the trust test with the identifier as the email. *)
Lemma get_key_single `{codes : GPGCode_values}
  {Sg NSg ER DR : Type} (gpg : Engine Sg NSg ER DR)
  (keyid : string) (validate encrypt sign signed_only : bool) (key : Key) :
  ctx_get_key gpg new_Context keyid = inr key ->
  get_key gpg keyid validate encrypt sign signed_only =
  match (if validate then validate_key key sign encrypt else Return tt) with
  | Raise ex => Raise ex
  | Return _ =>
      if signed_only && negb (check_uid_validity key keyid) then
        raise_GPGProblem ("Can not find a trusworthy key for '" ++ keyid ++ "'.")
                         (Code GPGCode.NOT_FOUND)
      else Return key
  end.
Proof.
  intros H. unfold get_key. rewrite H. simpl.
  destruct validate; [|reflexivity].
  destruct (uids key) as [|u rest] eqn:Hu.
  - rewrite (validate_key_bare _ _ _ Hu).
    now destruct (validate_spec key sign encrypt).
  - rewrite (validate_key_first _ _ _ _ _ Hu).
    now destruct (validate_spec key sign encrypt).
Qed.

(** C9, as stated, fails: looked up by its fingerprint with [validate] and
    [signed_only] set, a revoked key fails with kind [KeyRevoked], not
    [NotFound]; validation comes before the trust test. *)
Lemma get_key_fingerprint_revoked :
  ctx_get_key (sample_engine (inr revoked_key) []) new_Context "DEAD" = inr revoked_key /\
  (forall u, In u (uids revoked_key) -> email u <> "DEAD") /\
  raised_kind (get_key (sample_engine (inr revoked_key) []) "DEAD" true false false true)
    = Some KeyRevoked /\
  ~ (exists p,
       get_key (sample_engine (inr revoked_key) []) "DEAD" true false false true
         = Raise (GPGProblem_exn p) /\ kind p = NotFound).
Proof.
  split; [reflexivity|]. split.
  - intros u [<- | []]. discriminate.
  - split; [reflexivity|]. intros [p [H Hk]].
    injection H as <-. discriminate Hk.
Qed.

(** C9 (amended): when the engine returns a single key, [get_key] with
    [signed_only] set passes the identifier itself as the email of the trust
    test: it returns only that key and only if some user id of the key has
    exactly the identifier as its email, is neither revoked nor invalid and
    has validity at least 4; when no user id of the key has the identifier as
    its email (a fingerprint, a key id) the call fails, with the failure
    of the validation when validation is asked for and fails, with kind
    [NotFound] otherwise. *)
Theorem get_key_signed_only_single `{codes : GPGCode_values}
  {Sg NSg ER DR : Type} (gpg : Engine Sg NSg ER DR)
  (keyid : string) (validate encrypt sign : bool) (key : Key) :
  ctx_get_key gpg new_Context keyid = inr key ->
  (forall r, get_key gpg keyid validate encrypt sign true = Return r ->
             r = key /\
             exists u, In u (uids key) /\ email u = keyid /\ uid_revoked u = false
                       /\ uid_invalid u = false /\ 4 <= validity u)
  /\
  ((forall u, In u (uids key) -> email u <> keyid) ->
   match (if validate then validate_key key sign encrypt else Return tt) with
   | Raise ex => get_key gpg keyid validate encrypt sign true = Raise ex
   | Return _ =>
       exists p, get_key gpg keyid validate encrypt sign true = Raise (GPGProblem_exn p)
                 /\ kind p = NotFound
   end).
Proof.
  intros Hlookup. rewrite (get_key_single gpg _ _ _ _ _ _ Hlookup). simpl.
  split.
  - intros r Hr.
    destruct (if validate then validate_key key sign encrypt else Return tt);
      [|discriminate Hr].
    destruct (check_uid_validity key keyid) eqn:Hc; simpl in Hr; [|discriminate Hr].
    injection Hr as <-. split; [reflexivity|].
    now apply check_uids_exists.
  - intros Hno.
    assert (Hc : check_uid_validity key keyid = false).
    { destruct (check_uid_validity key keyid) eqn:Hc; [|reflexivity].
      apply check_uids_exists in Hc as [u [Hin [He _]]].
      now elim (Hno u Hin). }
    rewrite Hc. simpl.
    destruct (if validate then validate_key key sign encrypt else Return tt).
    + eexists. split; [reflexivity | first [solve_kind | reflexivity]].
    + reflexivity.
Qed.

(** A valid key looked up by its fingerprint is refused with [NotFound] when
    [signed_only] is set. *)
Lemma get_key_signed_only_single_witness :
  ctx_get_key (sample_engine (inr good_key) []) new_Context "F00D" = inr good_key /\
  exists p, get_key (sample_engine (inr good_key) []) "F00D" true true false true
            = Raise (GPGProblem_exn p) /\ kind p = NotFound.
Proof.
  split; [reflexivity|].
  apply (proj2 (get_key_signed_only_single (sample_engine (inr good_key) [])
                  "F00D" true true false good_key eq_refl)).
  intros u [<- | []]. discriminate.
Defined.

Example get_key_signed_only_email :
  get_key (sample_engine (inr good_key) []) "a@b.com" true true false true = Return good_key.
Proof. reflexivity. Qed.

(** ** Crypto operations *)

(** The three ways out of [verify_detached]: the signatures of a
    verification that succeeds, as they are; a [GPGProblem] with the message
    and the code of a [GPGMEError]; any other exception of the binding, as
    it came. *)
Lemma verify_detached_cases
  {Sg NSg ER DR : Type} (gpg : Engine Sg NSg ER DR) (message signature : string) :
  verify_detached gpg message signature =
  match ctx_verify gpg new_Context message signature with
  | inl (errors.GPGME e) => raise_GPGProblem (errors.message e) (errors.code e)
  | inl (errors.NotGPGME name) => Raise (GpgError_exn name)
  | inr (_, verify_results) => Return (verify_signatures verify_results)
  end.
Proof.
  unfold verify_detached.
  now destruct (ctx_verify gpg new_Context message signature) as [[e | name] | [x vr]].
Qed.

(** The code of the [GPGProblem] is the engine's own: its kind is [Other]
    exactly when the engine's code is the value of no [GPGCode] constant. *)
Lemma verify_detached_kind `{codes : GPGCode_values} (e : errors.GPGMEError) :
  kind (mkGPGProblem (errors.message e) (errors.code e)) = Other
  <-> forall c, Code c <> errors.code e.
Proof. apply kind_of_code_Other. Qed.

(** C6: a failure of the verification that the binding raises as an
    exception of another class than [GPGMEError] (a signature that does not
    verify: BadSignatures) is not caught by the [except] clause of
    [verify_detached]: it reaches the caller as it came, and no [GPGProblem]
    is raised. *)
Theorem verify_detached_unwrapped_failure :
  ctx_verify bad_signatures_engine new_Context "hello" "forged"
    = inl (errors.NotGPGME "BadSignatures") /\
  verify_detached bad_signatures_engine "hello" "forged"
    = Raise (GpgError_exn "BadSignatures") /\
  ~ (exists p, verify_detached bad_signatures_engine "hello" "forged"
               = Raise (GPGProblem_exn p)).
Proof.
  repeat split.
  intros [p H]. discriminate H.
Qed.

Example verify_detached_bad :
  verify_detached (sample_engine (inl general_error) []) "hello" "forged"
  = raise_GPGProblem "Bad signature" errors.BAD_SIGNATURE.
Proof. reflexivity. Qed.

(** With the sample table the code GENERAL of the engine is the value of a
    constant: the kind of the [GPGProblem] is not [Other]. *)
Example verify_detached_code_collision :
  verify_detached failing_engine "hello" "forged"
  = raise_GPGProblem "General error" errors.GENERAL /\
  raised_kind (verify_detached failing_engine "hello" "forged") = Some AmbiguousName.
Proof. split; reflexivity. Qed.

Example verify_detached_good :
  verify_detached (sample_engine (inl general_error) []) "hello" "sig:hello"
  = Return ["good"].
Proof. reflexivity. Qed.

(** C8: [encrypt] is one call of the engine, with armor on, the recipients as
    given and [always_trust] set; its outcome is the engine's (the ciphertext,
    or the engine's error), whatever the state of the keys, and is never a
    failure of a validation kind. *)
Theorem encrypt_no_validation `{codes : GPGCode_values}
  {Sg NSg ER DR : Type} (gpg : Engine Sg NSg ER DR)
  (plaintext_str : string) (keys : list Key) :
  encrypt gpg plaintext_str (Some keys) =
  match ctx_encrypt gpg (mk_Context true []) plaintext_str (Some keys) true with
  | inl e => Raise (raised e)
  | inr (out, _, _) => Return out
  end
  /\ raises_validation_kind (encrypt gpg plaintext_str (Some keys)) = false
  /\ raised_kind (encrypt gpg plaintext_str (Some keys)) = None.
Proof.
  unfold encrypt, set_armor, new_Context. simpl.
  destruct (ctx_encrypt gpg (mk_Context true []) plaintext_str (Some keys) true)
    as [[e | name] | [[out er] sr]]; repeat split.
Qed.

(** A revoked key and a key without user ids are accepted as recipients. *)
Example encrypt_revoked_recipient :
  encrypt (sample_engine (inl general_error) []) "hello" (Some [revoked_key; bare_revoked_key])
  = Return "-----BEGIN PGP MESSAGE-----hello".
Proof. reflexivity. Qed.

(** ** Failures *)

Lemma validate_key_structured_or_index `{codes : GPGCode_values} (key : Key) (sign encrypt : bool) :
  structured_or_index (validate_key key sign encrypt) = true.
Proof.
  destruct (uids key) as [|u rest] eqn:Hu.
  - rewrite (validate_key_bare _ _ _ Hu). now destruct (validate_spec key sign encrypt).
  - rewrite (validate_key_first _ _ _ _ _ Hu). now destruct (validate_spec key sign encrypt).
Qed.

Lemma get_key_loop_structured_or_index `{codes : GPGCode_values} (encrypt sign : bool) (keys : list Key) :
  forall valid_key,
  structured_or_index (get_key_loop encrypt sign keys valid_key) = true.
Proof.
  induction keys as [|k rest IH]; intros valid_key; simpl.
  - reflexivity.
  - pose proof (validate_key_structured_or_index k sign encrypt) as Hv.
    destruct (validate_key k sign encrypt) as [[]|[p|e| | |n]]; try discriminate Hv.
    + destruct valid_key; [reflexivity | apply IH].
    + apply IH.
    + reflexivity.
Qed.

(** C5, as stated, fails: an engine error of the lookup whose code is none of
    AMBIGUOUS_NAME, INV_VALUE and EOF leaves [get_key] as it came, and so do
    the engine errors of [list_keys], [encrypt] and
    [detached_signature_for]. *)
Lemma get_key_reraises_engine_error :
  get_key failing_engine "x" true true false false = Raise (GPGMEError_exn general_error) /\
  list_keys failing_engine (Some "x") false = Raise (GPGMEError_exn general_error) /\
  encrypt failing_engine "hello" (Some [good_key]) = Raise (GPGMEError_exn general_error) /\
  detached_signature_for failing_engine "hello" None = Raise (GPGMEError_exn general_error) /\
  ~ (exists p, get_key failing_engine "x" true true false false = Raise (GPGProblem_exn p)).
Proof.
  repeat split.
  intros [p H]. discriminate H.
Qed.

(** An exception of the lookup that is not a [GPGMEError] leaves [get_key]
    as it came. *)
Lemma get_key_lookup_NotGPGME `{codes : GPGCode_values}
  {Sg NSg ER DR : Type} (gpg : Engine Sg NSg ER DR)
  (keyid : string) (validate encrypt sign signed_only : bool) (name : string) :
  ctx_get_key gpg new_Context keyid = inl (errors.NotGPGME name) ->
  get_key gpg keyid validate encrypt sign signed_only = Raise (GpgError_exn name).
Proof. intros Hl. unfold get_key. now rewrite Hl. Qed.

(** C5 (amended): [verify_detached] and [decrypt_verify] turn every
    [GPGMEError] of the engine into a [GPGProblem] with the engine's message
    and code; [validate_key] on a key with a user id fails with a
    [GPGProblem] only.  [get_key] turns the lookup errors INV_VALUE and EOF
    into a [GPGProblem] of kind [NotFound]; after a lookup that returns a
    key, and after AMBIGUOUS_NAME with a listing that succeeds, every failure
    of [get_key] other than the index fault of [validate_key] is a
    [GPGProblem]; a [GPGMEError] of the lookup with any other code, any other
    exception of the lookup and any exception of the listing are raised as
    they came.  [list_keys], [encrypt] and [detached_signature_for] let every
    exception of the engine through. *)
Theorem failures_classified `{codes : GPGCode_values}
  {Sg NSg ER DR : Type} (gpg : Engine Sg NSg ER DR)
  (keyid message signature encrypted plaintext_str : string)
  (validate encrypt_ sign signed_only private : bool)
  (key : Key) (signer : option Key) (keys : option (list Key)) (hint : option string) :
  match ctx_verify gpg new_Context message signature with
  | inl (errors.GPGME e) =>
      verify_detached gpg message signature
      = raise_GPGProblem (errors.message e) (errors.code e)
  | inl (errors.NotGPGME _) => True
  | inr _ => structured (verify_detached gpg message signature) = true
  end /\
  match ctx_decrypt gpg new_Context encrypted true with
  | inl (errors.GPGME e) =>
      decrypt_verify gpg encrypted
      = raise_GPGProblem (errors.message e) (errors.getcode e)
  | inl (errors.NotGPGME _) => True
  | inr _ => structured (decrypt_verify gpg encrypted) = true
  end /\
  match uids key with
  | [] => True
  | _ :: _ => structured (validate_key key sign encrypt_) = true
  end /\
  match ctx_get_key gpg new_Context keyid with
  | inr _ =>
      structured_or_index (get_key gpg keyid validate encrypt_ sign signed_only) = true
  | inl (errors.NotGPGME name) =>
      get_key gpg keyid validate encrypt_ sign signed_only = Raise (GpgError_exn name)
  | inl (errors.GPGME e) =>
      if errors.getcode e =? errors.AMBIGUOUS_NAME then
        match ctx_keylist gpg new_Context (Some keyid) false with
        | inr _ =>
            structured_or_index (get_key gpg keyid validate encrypt_ sign signed_only) = true
        | inl e' =>
            get_key gpg keyid validate encrypt_ sign signed_only = Raise (raised e')
        end
      else if (errors.getcode e =? errors.INV_VALUE) || (errors.getcode e =? errors.EOF) then
        raised_kind (get_key gpg keyid validate encrypt_ sign signed_only) = Some NotFound
      else get_key gpg keyid validate encrypt_ sign signed_only = Raise (GPGMEError_exn e)
  end /\
  match ctx_keylist gpg new_Context hint private with
  | inl e => list_keys gpg hint private = Raise (raised e)
  | inr ks => list_keys gpg hint private = Return ks
  end /\
  match ctx_encrypt gpg (mk_Context true []) plaintext_str keys true with
  | inl e => encrypt gpg plaintext_str keys = Raise (raised e)
  | inr _ => structured (encrypt gpg plaintext_str keys) = true
  end /\
  match ctx_sign gpg (mk_Context true match signer with Some k => [k] | None => [] end)
                 plaintext_str SIG_MODE_DETACH with
  | inl e => detached_signature_for gpg plaintext_str signer = Raise (raised e)
  | inr _ => structured (detached_signature_for gpg plaintext_str signer) = true
  end.
Proof.
  split; [|split; [|split; [|split; [|split; [|split]]]]].
  - unfold verify_detached.
    now destruct (ctx_verify gpg new_Context message signature) as [[e | name] | [x vr]].
  - unfold decrypt_verify.
    now destruct (ctx_decrypt gpg new_Context encrypted true)
      as [[e | name] | [[pt dr] vr]].
  - destruct (uids key) as [|u rest] eqn:Hu; [exact I|].
    rewrite (validate_key_first _ _ _ _ _ Hu).
    now destruct (validate_spec key sign encrypt_).
  - destruct (ctx_get_key gpg new_Context keyid) as [[e | name] | k] eqn:Hlookup.
    + rewrite (get_key_ambiguous_handler gpg _ _ _ _ _ _ Hlookup).
      unfold get_key_except, list_keys.
      destruct (errors.getcode e =? errors.AMBIGUOUS_NAME).
      * destruct (ctx_keylist gpg new_Context (Some keyid) false) as [e' | ks];
          [reflexivity|]. simpl.
        pose proof (get_key_loop_structured_or_index encrypt_ sign ks None) as Hl.
        destruct (get_key_loop encrypt_ sign ks None) as [[k|]|ex]; simpl;
          [reflexivity | reflexivity | exact Hl].
      * destruct ((errors.getcode e =? errors.INV_VALUE)
                  || (errors.getcode e =? errors.EOF))%bool; [|reflexivity].
        unfold raised_kind, raise_GPGProblem. f_equal. solve_kind.
    + exact (get_key_lookup_NotGPGME gpg _ _ _ _ _ _ Hlookup).
    + rewrite (get_key_single gpg _ _ _ _ _ _ Hlookup).
      pose proof (validate_key_structured_or_index k sign encrypt_) as Hv.
      destruct validate; simpl.
      * destruct (validate_key k sign encrypt_) as [[]|ex]; [|exact Hv].
        now destruct (signed_only && negb (check_uid_validity k keyid))%bool.
      * now destruct (signed_only && negb (check_uid_validity k keyid))%bool.
  - unfold list_keys.
    now destruct (ctx_keylist gpg new_Context hint private).
  - unfold encrypt, set_armor, new_Context. simpl.
    now destruct (ctx_encrypt gpg (mk_Context true []) plaintext_str keys true)
      as [e | [[out er] sr]].
  - unfold detached_signature_for, set_signers. simpl.
    destruct signer as [k|]; simpl;
      match goal with
      | |- context [ctx_sign ?g ?c ?p ?m] => now destruct (ctx_sign g c p m) as [e | [b sr]]
      end.
Qed.

Example get_key_not_found :
  get_key (sample_engine (inl (errors.mkGPGMEError "End of file" errors.EOF)) [])
          "nobody" false false false false
  = raise_GPGProblem "Can not find key for 'nobody'." (Code GPGCode.NOT_FOUND).
Proof. reflexivity. Qed.

Example decrypt_verify_failed :
  decrypt_verify (sample_engine (inl general_error) []) "garbage"
  = raise_GPGProblem "Decryption failed" errors.DECRYPT_FAILED.
Proof. reflexivity. Qed.

Example detached_signature_for_key :
  detached_signature_for (sample_engine (inl general_error) []) "hello" (Some good_key)
  = Return (["new"], "sig:hello").
Proof. reflexivity. Qed.

(** * Further properties of the module *)

(** ** What [get_key] returns *)

Lemma passes_not_fails `{codes : GPGCode_values} (k : Key) (sign encrypt : bool) :
  passes sign encrypt k = negb (fails k sign encrypt).
Proof.
  rewrite passes_spec, fails_spec. now destruct (validate_spec k sign encrypt).
Qed.

Lemma validate_key_Return_passes `{codes : GPGCode_values} (k : Key) (sign encrypt : bool) (x : unit) :
  validate_key k sign encrypt = Return x -> passes sign encrypt k = true.
Proof. unfold passes. now intros ->. Qed.

(** What [fails] being false says of the attributes of the key. *)
Lemma not_fails_attributes (k : Key) (sign encrypt : bool) :
  fails k sign encrypt = false ->
  revoked k = false /\ expired k = false /\ invalid k = false /\
  (encrypt = true -> can_encrypt k = true) /\
  (sign = true -> can_sign k = true).
Proof.
  unfold fails.
  destruct (revoked k), (expired k), (invalid k), encrypt, sign,
    (can_encrypt k), (can_sign k); simpl; intros H; try discriminate H;
    repeat split; auto.
Qed.

(** A key that leaves the loop of [get_key] is the one the loop started with
    or a candidate that passed the validation. *)
Lemma get_key_loop_Return `{codes : GPGCode_values} (encrypt sign : bool) (keys : list Key) :
  forall valid_key k,
  get_key_loop encrypt sign keys valid_key = Return (Some k) ->
  valid_key = Some k \/ (In k keys /\ passes sign encrypt k = true).
Proof.
  induction keys as [|k0 rest IH]; intros valid_key k H; simpl in H.
  - left. now injection H.
  - destruct (validate_key k0 sign encrypt) as [x|[p|e| | |n]] eqn:Hv;
      try discriminate H.
    + destruct valid_key as [a|]; [discriminate H|].
      destruct (IH _ _ H) as [Hk | [Hin Hp]].
      * injection Hk as <-. right. split; [now left|].
        exact (validate_key_Return_passes _ _ _ _ Hv).
      * right. split; [now right | exact Hp].
    + destruct (IH _ _ H) as [Hk | [Hin Hp]]; [now left|].
      right. split; [now right | exact Hp].
Qed.

(** The loop faults only on a candidate on which [validate_key] faults. *)
Lemma get_key_loop_IndexError `{codes : GPGCode_values} (encrypt sign : bool) (keys : list Key) :
  forall valid_key,
  get_key_loop encrypt sign keys valid_key = Raise IndexError ->
  exists k, In k keys /\ validate_key k sign encrypt = Raise IndexError.
Proof.
  induction keys as [|k0 rest IH]; intros valid_key H; simpl in H.
  - discriminate H.
  - destruct (validate_key k0 sign encrypt) as [x|[p|e| | |n]] eqn:Hv;
      try discriminate H.
    + destruct valid_key as [a|]; [discriminate H|].
      destruct (IH _ H) as [k [Hin Hk]]. exists k. split; [now right | exact Hk].
    + destruct (IH _ H) as [k [Hin Hk]]. exists k. split; [now right | exact Hk].
    + exists k0. split; [now left | exact Hv].
Qed.

Lemma validate_key_IndexError `{codes : GPGCode_values} (k : Key) (sign encrypt : bool) :
  validate_key k sign encrypt = Raise IndexError ->
  uids k = [] /\ fails k sign encrypt = true.
Proof.
  intros H. destruct (uids k) as [|u rest] eqn:Hu.
  - split; [reflexivity|]. rewrite fails_spec.
    rewrite (validate_key_bare _ _ _ Hu) in H.
    now destruct (validate_spec k sign encrypt).
  - rewrite (validate_key_first _ _ _ _ _ Hu) in H.
    now destruct (validate_spec k sign encrypt).
Qed.

(** The handler of [get_key] returns a listed candidate that passes the
    validation, and only after the code AMBIGUOUS_NAME. *)
Lemma get_key_except_Return `{codes : GPGCode_values}
  {Sg NSg ER DR : Type} (gpg : Engine Sg NSg ER DR)
  (keyid : string) (encrypt sign : bool) (e : errors.GPGMEError) (k : Key) :
  get_key_except gpg keyid encrypt sign e = Return k ->
  errors.getcode e = errors.AMBIGUOUS_NAME /\
  exists keys, ctx_keylist gpg new_Context (Some keyid) false = inr keys
               /\ In k keys /\ passes sign encrypt k = true.
Proof.
  unfold get_key_except, list_keys. intros H.
  destruct (errors.getcode e =? errors.AMBIGUOUS_NAME) eqn:Hc.
  - split; [now apply Z.eqb_eq|].
    destruct (ctx_keylist gpg new_Context (Some keyid) false) as [e' | keys];
      [discriminate H|]. simpl in H.
    destruct (get_key_loop encrypt sign keys None) as [[k'|]|ex] eqn:Hl;
      simpl in H; try discriminate H.
    injection H as ->.
    destruct (get_key_loop_Return _ _ _ _ _ Hl) as [Hk | Hk]; [discriminate Hk|].
    now exists keys.
  - now destruct ((errors.getcode e =? errors.INV_VALUE)
                  || (errors.getcode e =? errors.EOF))%bool.
Qed.

(** X1: a key that [get_key] returns is a key of the engine: the key of the
    lookup, or, after AMBIGUOUS_NAME, one of the keys listed for the
    identifier as hint (public keys only). *)
Theorem get_key_returns_engine_key `{codes : GPGCode_values}
  {Sg NSg ER DR : Type} (gpg : Engine Sg NSg ER DR)
  (keyid : string) (validate encrypt sign signed_only : bool) (k : Key) :
  get_key gpg keyid validate encrypt sign signed_only = Return k ->
  ctx_get_key gpg new_Context keyid = inr k
  \/ exists e keys,
       ctx_get_key gpg new_Context keyid = inl (errors.GPGME e)
       /\ errors.getcode e = errors.AMBIGUOUS_NAME
       /\ ctx_keylist gpg new_Context (Some keyid) false = inr keys
       /\ In k keys.
Proof.
  intros H.
  destruct (ctx_get_key gpg new_Context keyid) as [[e | name] | key] eqn:Hlookup.
  - right. rewrite (get_key_ambiguous_handler gpg _ _ _ _ _ _ Hlookup) in H.
    destruct (get_key_except_Return gpg _ _ _ _ _ H) as [Hc [keys [Hl [Hin _]]]].
    now exists e, keys.
  - rewrite (get_key_lookup_NotGPGME gpg _ _ _ _ _ _ Hlookup) in H. discriminate H.
  - left. rewrite (get_key_single gpg _ _ _ _ _ _ Hlookup) in H.
    destruct (if validate then validate_key key sign encrypt else Return tt);
      [|discriminate H].
    destruct (signed_only && negb (check_uid_validity key keyid))%bool;
      [discriminate H|]. now injection H as ->.
Qed.

Lemma get_key_returns_engine_key_witness :
  ctx_get_key (sample_engine (inl ambiguous) [expired_key; good_key]) new_Context "x"
    = inr good_key
  \/ exists e keys,
       ctx_get_key (sample_engine (inl ambiguous) [expired_key; good_key]) new_Context "x"
         = inl (errors.GPGME e)
       /\ errors.getcode e = errors.AMBIGUOUS_NAME
       /\ ctx_keylist (sample_engine (inl ambiguous) [expired_key; good_key])
            new_Context (Some "x") false = inr keys
       /\ In good_key keys.
Proof.
  apply (get_key_returns_engine_key
           (sample_engine (inl ambiguous) [expired_key; good_key])
           "x" false true false false good_key).
  reflexivity.
Defined.

(** X2: when validation is asked for, or when the lookup did not return a
    key, a key that [get_key] returns is neither revoked, expired nor
    invalid, can encrypt if [encrypt] is set and can sign if [sign] is
    set. *)
Theorem get_key_returns_usable_key `{codes : GPGCode_values}
  {Sg NSg ER DR : Type} (gpg : Engine Sg NSg ER DR)
  (keyid : string) (validate encrypt sign signed_only : bool) (k : Key) :
  get_key gpg keyid validate encrypt sign signed_only = Return k ->
  validate = true \/ (exists e, ctx_get_key gpg new_Context keyid = inl e) ->
  revoked k = false /\ expired k = false /\ invalid k = false /\
  (encrypt = true -> can_encrypt k = true) /\
  (sign = true -> can_sign k = true).
Proof.
  intros H Hv. apply not_fails_attributes.
  apply negb_true_iff. rewrite <- passes_not_fails.
  destruct (ctx_get_key gpg new_Context keyid) as [[e | name] | key] eqn:Hlookup.
  - rewrite (get_key_ambiguous_handler gpg _ _ _ _ _ _ Hlookup) in H.
    now destruct (get_key_except_Return gpg _ _ _ _ _ H) as [_ [keys [_ [_ Hp]]]].
  - rewrite (get_key_lookup_NotGPGME gpg _ _ _ _ _ _ Hlookup) in H. discriminate H.
  - destruct Hv as [-> | [e He]]; [|discriminate He].
    rewrite (get_key_single gpg _ _ _ _ _ _ Hlookup) in H.
    destruct (validate_key key sign encrypt) as [x|ex] eqn:Hval; [|discriminate H].
    destruct (signed_only && negb (check_uid_validity key keyid))%bool;
      [discriminate H|]. injection H as <-.
    exact (validate_key_Return_passes _ _ _ _ Hval).
Qed.

Lemma get_key_returns_usable_key_witness :
  revoked good_key = false /\ expired good_key = false /\ invalid good_key = false /\
  (true = true -> can_encrypt good_key = true) /\
  (false = true -> can_sign good_key = true).
Proof.
  apply (get_key_returns_usable_key (sample_engine (inr good_key) [])
           "a@b.com" true true false true good_key).
  - reflexivity.
  - left. reflexivity.
Defined.

(** Without [validate] the key of the lookup is returned unchecked. *)
Example get_key_unvalidated_revoked :
  get_key (sample_engine (inr revoked_key) []) "a@b.com" false true false true
  = Return revoked_key.
Proof. reflexivity. Qed.

(** ** What [get_key] raises *)

Lemma get_key_loop_raised_kind `{codes : GPGCode_values} (encrypt sign : bool) (keys : list Key) :
  forall valid_key,
  match raised_kind (get_key_loop encrypt sign keys valid_key) with
  | Some kd => kd = AmbiguousName
  | None => True
  end.
Proof.
  induction keys as [|k0 rest IH]; intros valid_key; cbn [get_key_loop].
  - exact I.
  - destruct (validate_key k0 sign encrypt) as [x|[p|e| | |n]]; try exact I.
    + destruct valid_key as [a|]; [solve_kind | apply IH].
    + apply IH.
Qed.

(** X3: when the lookup of the engine fails, [get_key] raises no
    [GPGProblem] of a validation kind, whatever the flags: after
    AMBIGUOUS_NAME the failures of the candidates are dropped and only
    [NotFound] or [AmbiguousName] is reported. *)
Theorem get_key_lookup_failed_kinds `{codes : GPGCode_values}
  {Sg NSg ER DR : Type} (gpg : Engine Sg NSg ER DR)
  (keyid : string) (validate encrypt sign signed_only : bool)
  (e : errors.GpgError) :
  ctx_get_key gpg new_Context keyid = inl e ->
  match raised_kind (get_key gpg keyid validate encrypt sign signed_only) with
  | Some kd => kd = NotFound \/ kd = AmbiguousName
  | None => True
  end.
Proof.
  intros Hlookup. destruct e as [e | name];
    [|now rewrite (get_key_lookup_NotGPGME gpg _ _ _ _ _ _ Hlookup)].
  rewrite (get_key_ambiguous_handler gpg _ _ _ _ _ _ Hlookup).
  unfold get_key_except, list_keys.
  destruct (errors.getcode e =? errors.AMBIGUOUS_NAME).
  - destruct (ctx_keylist gpg new_Context (Some keyid) false) as [e' | keys];
      [now destruct e'|]. cbn [call bind].
    pose proof (get_key_loop_raised_kind encrypt sign keys None) as Hl.
    destruct (get_key_loop encrypt sign keys None) as [[k|]|[p|e'| | |n]];
      try exact I.
    + left. solve_kind.
    + right. exact Hl.
  - destruct ((errors.getcode e =? errors.INV_VALUE)
              || (errors.getcode e =? errors.EOF))%bool; [|exact I].
    left. solve_kind.
Qed.

Lemma get_key_lookup_failed_kinds_witness :
  NotFound = NotFound \/ NotFound = AmbiguousName.
Proof.
  generalize (get_key_lookup_failed_kinds
                (sample_engine (inl ambiguous) [expired_key; revoked_key])
                "x" true true false false (errors.GPGME ambiguous) eq_refl).
  cbv. exact (fun W => W).
Defined.

(** X4: when the lookup returns a key, [get_key] never reports
    [AmbiguousName]; it reports a validation kind only if [validate] is set,
    and [NotFound] only if [signed_only] is set; with neither flag it returns
    the key. *)
Theorem get_key_lookup_succeeded_kinds `{codes : GPGCode_values}
  {Sg NSg ER DR : Type} (gpg : Engine Sg NSg ER DR)
  (keyid : string) (validate encrypt sign signed_only : bool) (key : Key) :
  ctx_get_key gpg new_Context keyid = inr key ->
  match get_key gpg keyid validate encrypt sign signed_only with
  | Return k => k = key
  | Raise (GPGProblem_exn p) =>
      (is_validation_kind (kind p) = true /\ validate = true)
      \/ (kind p = NotFound /\ signed_only = true)
  | Raise ex => validate = true /\ ex = IndexError
  end.
Proof.
  intros Hlookup. rewrite (get_key_single gpg _ _ _ _ _ _ Hlookup).
  assert (Htrust :
            match (if signed_only && negb (check_uid_validity key keyid)
                   then raise_GPGProblem
                          ("Can not find a trusworthy key for '" ++ keyid ++ "'.")
                          (Code GPGCode.NOT_FOUND)
                   else Return key) with
            | Return k => k = key
            | Raise (GPGProblem_exn p) =>
                (is_validation_kind (kind p) = true /\ validate = true)
                \/ (kind p = NotFound /\ signed_only = true)
            | Raise ex => validate = true /\ ex = IndexError
            end).
  { destruct signed_only; [|reflexivity].
    destruct (check_uid_validity key keyid); [reflexivity|].
    right. split; [solve_kind | reflexivity]. }
  destruct validate; [|exact Htrust].
  destruct (uids key) as [|u rest] eqn:Hu.
  - rewrite (validate_key_bare _ _ _ Hu).
    destruct (validate_spec key sign encrypt); [now split | exact Htrust].
  - rewrite (validate_key_first _ _ _ _ _ Hu).
    destruct (validate_spec key sign encrypt) as [kd|] eqn:Hs; [|exact Htrust].
    pose proof (validate_spec_validation_kind _ _ _ _ Hs) as Hkd.
    left. split; [|reflexivity].
    unfold kind. cbn [problem_code]. rewrite kind_failure_code; [exact Hkd|].
    intros ->. discriminate Hkd.
Qed.

Lemma get_key_lookup_succeeded_kinds_witness :
  (is_validation_kind KeyRevoked = true /\ true = true)
  \/ (KeyRevoked = NotFound /\ true = true).
Proof.
  generalize (get_key_lookup_succeeded_kinds (sample_engine (inr revoked_key) [])
                "DEAD" true false false true revoked_key eq_refl).
  cbv. exact (fun W => W).
Defined.

(** X5: [get_key] faults with [IndexError] only because of a key without
    user ids that fails a check: the key of the lookup when [validate] is
    set, or a listed candidate after AMBIGUOUS_NAME. *)
Theorem get_key_IndexError_source `{codes : GPGCode_values}
  {Sg NSg ER DR : Type} (gpg : Engine Sg NSg ER DR)
  (keyid : string) (validate encrypt sign signed_only : bool) :
  get_key gpg keyid validate encrypt sign signed_only = Raise IndexError ->
  exists k,
    uids k = [] /\ fails k sign encrypt = true /\
    ((ctx_get_key gpg new_Context keyid = inr k /\ validate = true)
     \/ exists e keys,
          ctx_get_key gpg new_Context keyid = inl (errors.GPGME e)
          /\ ctx_keylist gpg new_Context (Some keyid) false = inr keys
          /\ In k keys).
Proof.
  intros H.
  destruct (ctx_get_key gpg new_Context keyid) as [[e | name] | key] eqn:Hlookup;
    [| rewrite (get_key_lookup_NotGPGME gpg _ _ _ _ _ _ Hlookup) in H; discriminate H |].
  - rewrite (get_key_ambiguous_handler gpg _ _ _ _ _ _ Hlookup) in H.
    unfold get_key_except, list_keys in H.
    destruct (errors.getcode e =? errors.AMBIGUOUS_NAME).
    + destruct (ctx_keylist gpg new_Context (Some keyid) false) as [e' | keys] eqn:Hl;
        [now destruct e'|]. simpl in H.
      destruct (get_key_loop encrypt sign keys None) as [[k|]|ex] eqn:Hloop;
        simpl in H; try discriminate H.
      injection H as ->.
      destruct (get_key_loop_IndexError _ _ _ _ Hloop) as [k [Hin Hk]].
      destruct (validate_key_IndexError _ _ _ Hk) as [Hu Hf].
      exists k. repeat split; auto. right. now exists e, keys.
    + now destruct ((errors.getcode e =? errors.INV_VALUE)
                    || (errors.getcode e =? errors.EOF))%bool.
  - rewrite (get_key_single gpg _ _ _ _ _ _ Hlookup) in H.
    destruct validate.
    + destruct (validate_key key sign encrypt) as [x|ex] eqn:Hv.
      * now destruct (signed_only && negb (check_uid_validity key keyid))%bool.
      * injection H as ->.
        destruct (validate_key_IndexError _ _ _ Hv) as [Hu Hf].
        exists key. repeat split; auto.
    + now destruct (signed_only && negb (check_uid_validity key keyid))%bool.
Qed.

Lemma get_key_IndexError_source_witness :
  exists k,
    uids k = [] /\ fails k false true = true /\
    ((ctx_get_key (sample_engine (inl ambiguous) [good_key; bare_revoked_key])
        new_Context "x" = inr k /\ false = true)
     \/ exists e keys,
          ctx_get_key (sample_engine (inl ambiguous) [good_key; bare_revoked_key])
            new_Context "x" = inl (errors.GPGME e)
          /\ ctx_keylist (sample_engine (inl ambiguous) [good_key; bare_revoked_key])
               new_Context (Some "x") false = inr keys
          /\ In k keys).
Proof.
  apply (get_key_IndexError_source
           (sample_engine (inl ambiguous) [good_key; bare_revoked_key])
           "x" false true false false).
  reflexivity.
Defined.

(** ** The order of the candidates *)

Lemma filter_Permutation {A} (f : A -> bool) (l l' : list A) :
  Permutation l l' -> Permutation (filter f l) (filter f l').
Proof.
  induction 1 as [| x l l' _ IH | x y l | l l' l'' _ IH1 _ IH2]; simpl.
  - constructor.
  - destruct (f x); [now constructor | exact IH].
  - destruct (f x), (f y); try apply Permutation_refl. apply perm_swap.
  - now transitivity (filter f l').
Qed.

(** The only [GPGProblem] of the loop is the one of its second survivor. *)
Lemma get_key_loop_problem `{codes : GPGCode_values} (encrypt sign : bool) (keys : list Key) :
  forall valid_key p,
  get_key_loop encrypt sign keys valid_key = Raise (GPGProblem_exn p) ->
  p = mkGPGProblem
        "More than one key found matching this filter. Please be more specific (use a key ID like 4AC8EE1D)."
        (Code GPGCode.AMBIGUOUS_NAME).
Proof.
  induction keys as [|k0 rest IH]; intros valid_key p H; simpl in H.
  - discriminate H.
  - destruct (validate_key k0 sign encrypt) as [x|[q|e| | |n]]; try discriminate H.
    + destruct valid_key as [a|]; [now injection H as <- | exact (IH _ _ H)].
    + exact (IH _ _ H).
Qed.

(** X6: after AMBIGUOUS_NAME the outcome of [get_key] does not depend on the
    order in which the engine lists the candidates, as long as no candidate
    without user ids fails the validation. *)
Theorem get_key_ambiguous_order `{codes : GPGCode_values}
  {Sg NSg ER DR : Type} (gpg gpg' : Engine Sg NSg ER DR)
  (keyid : string) (validate encrypt sign signed_only : bool)
  (e : errors.GPGMEError) (keys keys' : list Key) :
  ctx_get_key gpg new_Context keyid = inl (errors.GPGME e) ->
  ctx_get_key gpg' new_Context keyid = inl (errors.GPGME e) ->
  errors.getcode e = errors.AMBIGUOUS_NAME ->
  ctx_keylist gpg new_Context (Some keyid) false = inr keys ->
  ctx_keylist gpg' new_Context (Some keyid) false = inr keys' ->
  Permutation keys keys' ->
  (forall k, In k keys -> uids k = [] -> passes sign encrypt k = true) ->
  get_key gpg keyid validate encrypt sign signed_only
  = get_key gpg' keyid validate encrypt sign signed_only.
Proof.
  intros Hl Hl' Hc Hk Hk' Hperm Hbare.
  assert (Hbare' : forall k, In k keys' -> uids k = [] -> passes sign encrypt k = true).
  { intros k Hin. apply Hbare. apply (Permutation_in k (Permutation_sym Hperm) Hin). }
  rewrite (get_key_ambiguous_handler gpg _ _ _ _ _ _ Hl).
  rewrite (get_key_ambiguous_handler gpg' _ _ _ _ _ _ Hl').
  unfold get_key_except, list_keys. rewrite Hc, Hk, Hk'. simpl.
  pose proof (get_key_loop_survivors encrypt sign keys Hbare None) as H1.
  pose proof (get_key_loop_survivors encrypt sign keys' Hbare' None) as H2.
  pose proof (filter_Permutation (passes sign encrypt) _ _ Hperm) as Hf.
  destruct (filter (passes sign encrypt) keys) as [|k1 [|k2 rest]].
  - apply Permutation_nil in Hf. rewrite Hf in H2. now rewrite H1, H2.
  - apply Permutation_length_1_inv in Hf. rewrite Hf in H2. now rewrite H1, H2.
  - destruct (filter (passes sign encrypt) keys') as [|k1' [|k2' rest']].
    + apply Permutation_sym, Permutation_nil in Hf. discriminate Hf.
    + apply Permutation_length in Hf. discriminate Hf.
    + destruct H1 as [m1 H1], H2 as [m2 H2].
      pose proof (get_key_loop_problem _ _ _ _ _ H1) as E1.
      pose proof (get_key_loop_problem _ _ _ _ _ H2) as E2.
      injection E1 as ->. injection E2 as ->.
      now rewrite H1, H2.
Qed.

Lemma get_key_ambiguous_order_witness :
  get_key (sample_engine (inl ambiguous) [expired_key; good_key; revoked_key])
          "x" false true false false
  = get_key (sample_engine (inl ambiguous) [revoked_key; expired_key; good_key])
            "x" false true false false.
Proof.
  apply (get_key_ambiguous_order
           (sample_engine (inl ambiguous) [expired_key; good_key; revoked_key])
           (sample_engine (inl ambiguous) [revoked_key; expired_key; good_key])
           "x" false true false false ambiguous
           [expired_key; good_key; revoked_key] [revoked_key; expired_key; good_key]
           eq_refl eq_refl eq_refl eq_refl eq_refl).
  - apply Permutation_sym.
    apply (Permutation_cons_app [expired_key; good_key] []). apply Permutation_refl.
  - intros k [<- | [<- | [<- | []]]]; discriminate.
Defined.

(** With a candidate that faults the order shows: the fault is reached or
    not. *)
Example get_key_ambiguous_order_fault :
  get_key (sample_engine (inl ambiguous) [good_key; other_good_key; bare_revoked_key])
          "x" false true false false
  <> get_key (sample_engine (inl ambiguous) [bare_revoked_key; good_key; other_good_key])
             "x" false true false false.
Proof. discriminate. Qed.

(** ** The validator and the flags *)

(** X7: asking for fewer capabilities never turns a key that validates into
    one that does not: if [validate_key] returns with the flags [sign] and
    [encrypt], it returns with any flags that ask for no more; and a key that
    validates with both flags set validates with every choice of flags. *)
Theorem validate_key_fewer_flags `{codes : GPGCode_values} (key : Key) (sign encrypt sign' encrypt' : bool) :
  validate_key key sign encrypt = Return tt ->
  implb sign' sign = true ->
  implb encrypt' encrypt = true ->
  validate_key key sign' encrypt' = Return tt.
Proof.
  intros H Hs He.
  pose proof (validate_key_Return_passes _ _ _ _ H) as Hp.
  rewrite passes_not_fails in Hp. apply negb_true_iff in Hp.
  assert (Hf : fails key sign' encrypt' = false).
  { unfold fails in *.
    destruct (revoked key), (expired key), (invalid key), (can_encrypt key),
      (can_sign key), sign, encrypt, sign', encrypt'; simpl in *; congruence. }
  destruct (uids key) as [|u rest] eqn:Hu.
  - rewrite (validate_key_bare _ _ _ Hu). rewrite fails_spec in Hf.
    now destruct (validate_spec key sign' encrypt').
  - rewrite (validate_key_first _ _ _ _ _ Hu). rewrite fails_spec in Hf.
    now destruct (validate_spec key sign' encrypt').
Qed.

Lemma validate_key_fewer_flags_witness :
  validate_key good_key false true = Return tt.
Proof.
  apply (validate_key_fewer_flags good_key true true false true); reflexivity.
Defined.

(** X8: a revoked, expired or invalid key fails in the same way whatever
    capabilities are asked for: the outcome of [validate_key] is then the
    outcome with no flag set. *)
Theorem validate_key_flags_irrelevant `{codes : GPGCode_values} (key : Key) (sign encrypt : bool) :
  (revoked key || expired key || invalid key)%bool = true ->
  validate_key key sign encrypt = validate_key key false false.
Proof.
  intros H. unfold validate_key.
  destruct (revoked key); [now destruct (uids_0_uid key)|].
  destruct (expired key); [now destruct (uids_0_uid key)|].
  destruct (invalid key); [now destruct (uids_0_uid key)|].
  discriminate H.
Qed.

Lemma validate_key_flags_irrelevant_witness :
  validate_key expired_key true true = validate_key expired_key false false.
Proof.
  apply (validate_key_flags_irrelevant expired_key true true). reflexivity.
Defined.

(** ** Trust and the sequence of user ids *)

(** X9: [check_uid_validity] does not depend on the order of the user ids of
    the key, nor on any attribute of the key other than its user ids. *)
Theorem check_uid_validity_Permutation (key key' : Key) (email_ : string) :
  Permutation (uids key) (uids key') ->
  check_uid_validity key email_ = check_uid_validity key' email_.
Proof.
  intros Hp. unfold check_uid_validity.
  destruct (check_uids (uids key') email_) eqn:H'.
  - apply check_uids_exists in H' as [u [Hin H']].
    apply check_uids_exists. exists u. split; [|exact H'].
    apply (Permutation_in u (Permutation_sym Hp) Hin).
  - destruct (check_uids (uids key) email_) eqn:H; [|reflexivity].
    apply check_uids_exists in H as [u [Hin H]].
    rewrite <- H'. symmetry. apply check_uids_exists. exists u. split; [|exact H].
    apply (Permutation_in u Hp Hin).
Qed.

Lemma check_uid_validity_Permutation_witness :
  check_uid_validity (mkKey "F00D" false false false true true [alice_marginal; carol])
                     "c@d.org"
  = check_uid_validity (mkKey "DEAD" true false false false false [carol; alice_marginal])
                       "c@d.org".
Proof.
  apply (check_uid_validity_Permutation
           (mkKey "F00D" false false false true true [alice_marginal; carol])
           (mkKey "DEAD" true false false false false [carol; alice_marginal])
           "c@d.org").
  apply perm_swap.
Defined.

(** X10: more user ids never take trust away: an email trusted on a key stays
    trusted when user ids are added before or after those of the key. *)
Theorem check_uid_validity_more_uids (key key' : Key) (email_ : string)
        (before after : list UserID) :
  uids key' = (before ++ uids key ++ after)%list ->
  check_uid_validity key email_ = true ->
  check_uid_validity key' email_ = true.
Proof.
  unfold check_uid_validity. intros -> H.
  apply check_uids_exists in H as [u [Hin H]].
  apply check_uids_exists. exists u. split; [|exact H].
  apply in_or_app. right. apply in_or_app. now left.
Qed.

Lemma check_uid_validity_more_uids_witness :
  check_uid_validity (mkKey "F00D" false false false true true
                        [alice_marginal; carol; alice_marginal]) "c@d.org" = true.
Proof.
  apply (check_uid_validity_more_uids other_good_key
           (mkKey "F00D" false false false true true
              [alice_marginal; carol; alice_marginal])
           "c@d.org" [alice_marginal] [alice_marginal]); reflexivity.
Defined.

(** ** Lower case *)

Lemma lower_ascii_fixed (c : ascii) : is_upper c = false -> lower_ascii c = c.
Proof. unfold is_upper, lower_ascii. now intros ->. Qed.

(** [lower] is idempotent and keeps the length; it changes a string exactly
    when the string has a capital. *)
Lemma lower_idempotent (s : string) :
  lower (lower s) = lower s
  /\ String.length (lower s) = String.length s
  /\ (if no_upper s then lower s = s else lower s <> s).
Proof.
  split; [|split].
  - induction s as [|c r IH]; simpl; [reflexivity|].
    now rewrite IH, (lower_ascii_fixed _ (lower_ascii_no_upper c)).
  - apply lower_length.
  - destruct (no_upper s) eqn:Hn.
    + induction s as [|c r IH]; simpl in *; [reflexivity|].
      apply andb_true_iff in Hn as [Hc Hr]. apply negb_true_iff in Hc.
      now rewrite (lower_ascii_fixed _ Hc), (IH Hr).
    + intros E. rewrite <- E, lower_no_upper in Hn. discriminate Hn.
Qed.

(** X11: a value that [RFC3156_micalg_from_algo] returns starts with "pgp-",
    has no capital anywhere (it is unchanged by [lower]), and is four
    characters longer than the engine's name of the algorithm. *)
Theorem RFC3156_micalg_from_algo_value
  {Sg NSg ER DR : Type} (gpg : Engine Sg NSg ER DR) (hash_algo : Z) (r : string) :
  RFC3156_micalg_from_algo gpg hash_algo = Return r ->
  String.prefix "pgp-" r = true /\ lower r = r /\
  exists name, hash_algo_name gpg hash_algo = Some name
               /\ String.length r = (4 + String.length name)%nat.
Proof.
  unfold RFC3156_micalg_from_algo.
  destruct (hash_algo_name gpg hash_algo) as [name|]; [|discriminate].
  intros H. injection H as <-. split; [|split].
  - simpl. now destruct (lower name).
  - pose proof (proj1 (lower_idempotent name)) as Hi.
    cbn. now rewrite Hi.
  - exists name. split; [reflexivity|]. simpl. now rewrite lower_length.
Qed.

Lemma RFC3156_micalg_from_algo_value_witness :
  String.prefix "pgp-" "pgp-sha1" = true /\ lower "pgp-sha1" = "pgp-sha1" /\
  exists name, hash_algo_name (sample_engine (inl general_error) []) 2 = Some name
               /\ String.length "pgp-sha1" = (4 + String.length name)%nat.
Proof.
  apply (RFC3156_micalg_from_algo_value (sample_engine (inl general_error) []) 2 "pgp-sha1").
  reflexivity.
Defined.

(** ** Signing, decrypting and the round trips *)

(** [detached_signature_for] is one call of the engine. *)
Lemma detached_signature_for_call
  {Sg NSg ER DR : Type} (gpg : Engine Sg NSg ER DR)
  (plaintext_str : string) (key : option Key) :
  detached_signature_for gpg plaintext_str key =
  match ctx_sign gpg (mk_Context true match key with Some k => [k] | None => [] end)
                 plaintext_str SIG_MODE_DETACH with
  | inl e => Raise (raised e)
  | inr (sigblob, sign_result) => Return (sign_signatures sign_result, sigblob)
  end.
Proof.
  unfold detached_signature_for, set_signers.
  destruct key as [k|]; simpl;
    match goal with
    | |- context [ctx_sign ?g ?c ?p ?m] => now destruct (ctx_sign g c p m) as [e | [b sr]]
    end.
Qed.

(** The key that signs is not validated. *)
Example detached_signature_for_revoked :
  detached_signature_for (sample_engine (inl general_error) []) "hello" (Some revoked_key)
  = Return (["new"], "sig:hello").
Proof. reflexivity. Qed.

(** X14: on an engine that decrypts, with verification, what it has
    encrypted for the recipients (armored, always trusted), [encrypt]
    followed by [decrypt_verify] returns the plaintext, with the signatures
    the engine found. *)
Theorem encrypt_decrypt_verify
  {Sg NSg ER DR : Type} (gpg : Engine Sg NSg ER DR)
  (plaintext_str out : string) (keys : option (list Key))
  (er : ER) (sr : option (SignResult NSg)) (dr : DR) (vr : VerifyResult Sg) :
  ctx_encrypt gpg (mk_Context true []) plaintext_str keys true = inr (out, er, sr) ->
  ctx_decrypt gpg new_Context out true = inr (plaintext_str, dr, vr) ->
  (encrypted <- encrypt gpg plaintext_str keys ;; decrypt_verify gpg encrypted)
  = Return (verify_signatures vr, plaintext_str).
Proof.
  intros He Hd. unfold encrypt, set_armor, new_Context in *. simpl.
  rewrite He. simpl. unfold decrypt_verify, new_Context. now rewrite Hd.
Qed.

Lemma encrypt_decrypt_verify_witness :
  (encrypted <- encrypt prefix_engine "hello" (Some [good_key]) ;;
   decrypt_verify prefix_engine encrypted)
  = Return ([], "hello").
Proof.
  apply (encrypt_decrypt_verify prefix_engine "hello" "ENC:hello" (Some [good_key])
           tt None tt (mkVerifyResult [])); reflexivity.
Defined.

(** X15: on an engine that verifies, against the plaintext, the detached
    signature it has made of it, [detached_signature_for] followed by
    [verify_detached] on the blob returns the signatures of the
    verification; the signing key is not needed to verify. *)
Theorem sign_verify_detached
  {Sg NSg ER DR : Type} (gpg : Engine Sg NSg ER DR)
  (plaintext_str sigblob x : string) (key : option Key)
  (sr : SignResult NSg) (vr : VerifyResult Sg) :
  ctx_sign gpg (mk_Context true match key with Some k => [k] | None => [] end)
           plaintext_str SIG_MODE_DETACH = inr (sigblob, sr) ->
  ctx_verify gpg new_Context plaintext_str sigblob = inr (x, vr) ->
  (r <- detached_signature_for gpg plaintext_str key ;;
   verify_detached gpg plaintext_str (snd r))
  = Return (verify_signatures vr).
Proof.
  intros Hs Hv.
  rewrite detached_signature_for_call, Hs. simpl.
  unfold verify_detached. now rewrite Hv.
Qed.

Lemma sign_verify_detached_witness :
  (r <- detached_signature_for prefix_engine "hello" (Some good_key) ;;
   verify_detached prefix_engine "hello" (snd r))
  = Return ["good"].
Proof.
  apply (sign_verify_detached prefix_engine "hello" "sig:hello" "" (Some good_key)
           (mkSignResult ["new"]) (mkVerifyResult ["good"])); reflexivity.
Defined.

(** * Properties of alot/buffer.py *)

(** ** Key dispatch *)

Lemma vi_key_not_vi (key : string) : is_vi_key (@vi_key key) = false.
Proof.
  unfold vi_key, is_vi_key.
  destruct (String.eqb key "j") eqn:Ej; [reflexivity|].
  destruct (String.eqb key "k") eqn:Ek; [reflexivity|].
  destruct (String.eqb key "h") eqn:Eh; [reflexivity|].
  destruct (String.eqb key "l") eqn:El; [reflexivity|].
  destruct (String.eqb key " ") eqn:Es; [reflexivity|].
  now rewrite Ej, Ek, Eh, El, Es.
Qed.

(** X16: whatever the bindings, the wrapped widget never receives one of the
    keys j, k, h, l or space from [Buffer.keypress]: a key that reaches the
    widget is unbound and has gone through the translation, with the size
    unchanged. *)
Theorem Buffer_keypress_widget_key
  {Parms Cmd Size Ret : Type} (factory : string -> Parms -> Cmd)
  (widget_answer : Size -> string -> Ret)
  (typename : string) (bindings : bindings_t) (size size' : Size) (key key' : string) :
  In (original_widget_keypress size' key')
     (fst (Buffer_keypress factory widget_answer typename bindings size key)) ->
  is_vi_key key' = false /\ key' = vi_key key /\ size' = size
  /\ bindings_get bindings key = None.
Proof.
  unfold Buffer_keypress.
  destruct (bindings_get bindings key) as [[cmdname parms]|]; simpl.
  - intros [H | [H | []]]; discriminate H.
  - intros [H | []]. injection H as <- <-.
    repeat split. apply vi_key_not_vi.
Qed.

Lemma Buffer_keypress_widget_key_witness :
  is_vi_key "down" = false /\ "down" = vi_key "j" /\ tt = tt
  /\ bindings_get bufferlist_bindings "j" = None.
Proof.
  apply (Buffer_keypress_widget_key (fun c _ => c) (fun _ k => k)
           "bufferlist" bufferlist_bindings tt tt "j" "down").
  left. reflexivity.
Defined.

(** [Buffer.keypress] does one of two things.  For a bound key it logs,
    applies the command made from the binding, leaves the widget alone and
    returns [None], also when the key is one of j, k, h, l, space; for an
    unbound key it applies no command and returns the answer of the widget to
    the translated key. *)
Lemma Buffer_keypress_dispatch
  {Parms Cmd Size Ret : Type} (factory : string -> Parms -> Cmd)
  (widget_answer : Size -> string -> Ret)
  (typename : string) (bindings : bindings_t) (size : Size) (key : string) :
  let r := Buffer_keypress factory widget_answer typename bindings size key in
  match bindings_get bindings key with
  | Some (cmdname, parms) =>
      snd r = None
      /\ filter applies_command (fst r) = [ui_apply_command (factory cmdname parms)]
      /\ filter asks_widget (fst r) = []
  | None =>
      snd r = Some (widget_answer size (vi_key key))
      /\ filter applies_command (fst r) = []
      /\ filter asks_widget (fst r) = [original_widget_keypress size (vi_key key)]
  end.
Proof.
  unfold Buffer_keypress.
  destruct (bindings_get bindings key) as [[cmdname parms]|]; simpl; repeat split.
Qed.

Example Buffer_keypress_bound_vi_key :
  Buffer_keypress (fun c (_ : unit) => c) (fun (_ : unit) k => k)
                  "search" [("j", ("next", tt))] tt "j"
  = ([logger_debug "search: handeles key: j"; ui_apply_command "next"], None).
Proof. reflexivity. Qed.

Example Buffer_keypress_space :
  Buffer_keypress (fun c _ => c) (fun (_ : unit) k => k)
                  "bufferlist" bufferlist_bindings tt " "
  = ([original_widget_keypress tt "page down"], Some "page down").
Proof. reflexivity. Qed.

(** ** The list of buffers *)

Section BufferList.

Context {B : Type}.
Variable B_eqb : B -> B -> bool.
Variable get_focus_position : ListBox B -> pyvalue.

Lemma py_filter_In (f : option (B -> bool)) (seq : list B) (b : B) :
  In b (py_filter f seq) -> In b seq.
Proof.
  destruct f as [f|]; simpl; [|auto]. intros H. now apply filter_In in H.
Qed.

Lemma list_index_In (seq : list B) (b : B) :
  (forall x, B_eqb x x = true) ->
  In b seq -> exists i, list_index B_eqb seq b = Done i.
Proof.
  intros Hrefl. induction seq as [|x rest IH]; intros Hin; [now elim Hin|].
  simpl. destruct (B_eqb x b) eqn:E; [now exists O|].
  destruct Hin as [-> | Hin]; [now rewrite Hrefl in E|].
  destruct (IH Hin) as [i Hi]. rewrite Hi. now exists (S i).
Qed.

Lemma list_index_first (seq : list B) (b : B) :
  (forall x y, B_eqb x y = true <-> x = y) ->
  forall i, list_index B_eqb seq b = Done i ->
  nth_error seq i = Some b
  /\ forall j, (j < i)%nat -> nth_error seq j <> Some b.
Proof.
  intros Heq. induction seq as [|x rest IH]; intros i H; simpl in H; [discriminate H|].
  destruct (B_eqb x b) eqn:E.
  - injection H as <-. apply Heq in E as ->. split; [reflexivity|].
    intros j Hj. inversion Hj.
  - destruct (list_index B_eqb rest b) as [i'|e] eqn:Hi; [|discriminate H].
    injection H as <-. destruct (IH _ eq_refl) as [Hn Hfirst]. split; [exact Hn|].
    intros [|j] Hj; simpl.
    + intros Hx. injection Hx as ->.
      assert (B_eqb b b = true) by now apply Heq. congruence.
    + apply Hfirst. now apply PeanoNat.lt_S_n.
Qed.

Lemma rebuild_lines_Done (self : BufferListBuffer B) (displayed : list B) :
  (forall x, B_eqb x x = true) ->
  (forall b, In b displayed -> In b (ui_buffers self)) ->
  forall num, exists lines,
    rebuild_lines B_eqb self num displayed = Done lines
    /\ List.length lines = List.length displayed.
Proof.
  intros Hrefl. induction displayed as [|b rest IH]; intros Hsub num; simpl.
  - now exists [].
  - destruct (list_index_In (ui_buffers self) b Hrefl (Hsub b (or_introl eq_refl)))
      as [i Hi].
    unfold index_of. rewrite Hi.
    destruct (IH (fun b' H => Hsub b' (or_intror H)) (S num)) as [lines [Hl Hlen]].
    rewrite Hl. eexists. split; [reflexivity|]. simpl. now rewrite Hlen.
Qed.

Lemma rebuild_lines_nth (self : BufferListBuffer B) (displayed : list B) :
  forall num lines i line,
  rebuild_lines B_eqb self num displayed = Done lines ->
  nth_error lines i = Some line ->
  nth_error displayed i = Some (line_buffer line)
  /\ line_attr line = (if Nat.eqb ((num + i) mod 2) 0 then "bufferlist_results_even"
                       else "bufferlist_results_odd")
  /\ line_focus_attr line = "bufferlist_focus"
  /\ exists j, index_of B_eqb self (line_buffer line) = Done j
               /\ line_label line = fmt_3d_colon j.
Proof.
  induction displayed as [|b rest IH]; intros num lines i line H Hn; simpl in H.
  - injection H as <-. now destruct i.
  - destruct (index_of B_eqb self b) as [j|e] eqn:Hj; [|discriminate H].
    destruct (rebuild_lines B_eqb self (S num) rest) as [ls|e] eqn:Hl; [|discriminate H].
    injection H as <-. destruct i as [|i]; simpl in Hn.
    + injection Hn as <-. simpl. rewrite Nat.add_0_r. repeat split. now exists j.
    + destruct (IH _ _ _ _ Hl Hn) as [H1 [H2 H3]].
      split; [exact H1|]. split; [|exact H3].
      now rewrite Nat.add_succ_r.
Qed.

End BufferList.

(** X17: when no buffer is displayed (the list of buffers is empty or the
    filter keeps none), [BufferListBuffer.rebuild] does not return: the
    modulo by the length faults, with [ZeroDivisionError] on the first build
    and whenever the old focus position is a number; the empty list box has
    been installed by then. *)
Theorem BufferListBuffer_rebuild_empty
  {B : Type} (B_eqb : B -> B -> bool) (get_focus_position : ListBox B -> pyvalue)
  (self : BufferListBuffer B) :
  py_filter (filtfun self) (ui_buffers self) = [] ->
  match rebuild_focusposition get_focus_position self with
  | Some v =>
      snd (BufferListBuffer_rebuild B_eqb get_focus_position self)
      = Fault (match v with PyInt _ => ZeroDivisionError | PyNone => TypeError end)
      /\ bufferlist (fst (BufferListBuffer_rebuild B_eqb get_focus_position self))
         = Some (mkListBox [] [])
      /\ isinitialized (fst (BufferListBuffer_rebuild B_eqb get_focus_position self))
         = true
  | None =>
      BufferListBuffer_rebuild B_eqb get_focus_position self = (self, Fault AttributeError_)
  end.
Proof.
  intros Hd. unfold rebuild_focusposition, BufferListBuffer_rebuild.
  destruct (isinitialized self) eqn:Hi.
  - destruct (bufferlist self) as [bl|]; [|reflexivity].
    rewrite Hd. simpl. rewrite Hi.
    now destruct (get_focus_position bl).
  - simpl. rewrite Hd. simpl. repeat split.
Qed.

Lemma BufferListBuffer_rebuild_empty_witness :
  snd (BufferListBuffer_rebuild Nat.eqb last_focus
         (BufferListBuffer_new [1%nat; 3%nat] (Some Nat.even)))
  = Fault ZeroDivisionError
  /\ bufferlist (fst (BufferListBuffer_rebuild Nat.eqb last_focus
                        (BufferListBuffer_new [1%nat; 3%nat] (Some Nat.even))))
     = Some (mkListBox [] [])
  /\ isinitialized (fst (BufferListBuffer_rebuild Nat.eqb last_focus
                           (BufferListBuffer_new [1%nat; 3%nat] (Some Nat.even))))
     = true.
Proof.
  apply (BufferListBuffer_rebuild_empty Nat.eqb last_focus
           (BufferListBuffer_new [1%nat; 3%nat] (Some Nat.even))).
  reflexivity.
Defined.

(** X18: when some buffer is displayed and the old focus position is a
    number [a] (0 on the first build), [BufferListBuffer.rebuild] returns,
    the new list box has one line per displayed buffer, and the focus it is
    given once is [a] modulo the number of lines: a valid position, which
    wraps around to the top when the old position is the number of lines. *)
Theorem BufferListBuffer_rebuild_focus
  {B : Type} (B_eqb : B -> B -> bool) (get_focus_position : ListBox B -> pyvalue)
  (self : BufferListBuffer B) (a : Z) :
  (forall x, B_eqb x x = true) ->
  py_filter (filtfun self) (ui_buffers self) <> [] ->
  rebuild_focusposition get_focus_position self = Some (PyInt a) ->
  exists lines p,
    BufferListBuffer_rebuild B_eqb get_focus_position self
    = (mkBufferListBuffer (filtfun self) (ui_buffers self) true
                          (Some (mkListBox lines [p])),
       Done tt)
    /\ List.length lines = List.length (py_filter (filtfun self) (ui_buffers self))
    /\ p = a mod Z.of_nat (List.length lines)
    /\ 0 <= p < Z.of_nat (List.length lines).
Proof.
  intros Hrefl Hne Hf.
  set (displayed := py_filter (filtfun self) (ui_buffers self)) in *.
  assert (Hlen : Z.of_nat (List.length displayed) > 0).
  { destruct displayed; [now elim Hne | simpl List.length; lia]. }
  unfold rebuild_focusposition in Hf. unfold BufferListBuffer_rebuild.
  destruct (isinitialized self) eqn:Hi.
  - destruct (bufferlist self) as [bl|]; [|discriminate Hf].
    injection Hf as Hf. rewrite Hf. fold displayed.
    destruct (rebuild_lines_Done B_eqb self displayed Hrefl
                (fun b => py_filter_In _ _ b) O) as [lines [Hl Hn]].
    rewrite Hl. simpl. rewrite Hi.
    destruct (Z.of_nat (List.length displayed) =? 0) eqn:E;
      [apply Z.eqb_eq in E; lia|].
    exists lines, (a mod Z.of_nat (List.length displayed)).
    rewrite Hn. repeat split; try reflexivity; apply Z.mod_pos_bound; lia.
  - injection Hf as <-. simpl. fold displayed.
    set (self' := mkBufferListBuffer (filtfun self) (ui_buffers self) true (bufferlist self)).
    destruct (rebuild_lines_Done B_eqb self' displayed Hrefl
                (fun b => py_filter_In _ _ b) O) as [lines [Hl Hn]].
    rewrite Hl. simpl.
    destruct (Z.of_nat (List.length displayed) =? 0) eqn:E;
      [apply Z.eqb_eq in E; lia|].
    exists lines, (0 mod Z.of_nat (List.length displayed)).
    rewrite Hn. repeat split; try reflexivity; apply Z.mod_pos_bound; lia.
Qed.

(** Three lines were shown with the focus on the last; one buffer has been
    closed since: the focus goes to the top. *)
Lemma BufferListBuffer_rebuild_focus_witness :
  exists lines p,
    BufferListBuffer_rebuild Nat.eqb last_focus
      (mkBufferListBuffer None [10%nat; 20%nat] true
         (Some (mkListBox [mkLine "  0:" 10%nat "a" "f"; mkLine "  1:" 20%nat "b" "f";
                           mkLine "  2:" 30%nat "a" "f"] [2])))
    = (mkBufferListBuffer None [10%nat; 20%nat] true (Some (mkListBox lines [p])),
       Done tt)
    /\ List.length lines = List.length (py_filter None [10%nat; 20%nat])
    /\ p = 2 mod Z.of_nat (List.length lines)
    /\ 0 <= p < Z.of_nat (List.length lines).
Proof.
  apply (BufferListBuffer_rebuild_focus Nat.eqb last_focus
           (mkBufferListBuffer None [10%nat; 20%nat] true
              (Some (mkListBox [mkLine "  0:" 10%nat "a" "f"; mkLine "  1:" 20%nat "b" "f";
                                mkLine "  2:" 30%nat "a" "f"] [2])))
           2).
  - apply Nat.eqb_refl.
  - discriminate.
  - reflexivity.
Defined.

Example BufferListBuffer_rebuild_wraps :
  BufferListBuffer_rebuild Nat.eqb last_focus
    (mkBufferListBuffer None [10%nat; 20%nat] true
       (Some (mkListBox [mkLine "  0:" 10%nat "a" "f"; mkLine "  1:" 20%nat "b" "f";
                         mkLine "  2:" 30%nat "a" "f"] [2])))
  = (mkBufferListBuffer None [10%nat; 20%nat] true
       (Some (mkListBox
                [mkLine "  0:" 10%nat "bufferlist_results_even" "bufferlist_focus";
                 mkLine "  1:" 20%nat "bufferlist_results_odd" "bufferlist_focus"]
                [0])),
     Done tt).
Proof. reflexivity. Qed.

Lemma BufferListBuffer_rebuild_body
  {B : Type} (B_eqb : B -> B -> bool) (get_focus_position : ListBox B -> pyvalue)
  (self self' : BufferListBuffer B) (bl : ListBox B) :
  BufferListBuffer_rebuild B_eqb get_focus_position self = (self', Done tt) ->
  bufferlist self' = Some bl ->
  exists self0,
    ui_buffers self0 = ui_buffers self
    /\ rebuild_lines B_eqb self0 O (py_filter (filtfun self) (ui_buffers self))
       = Done (body bl).
Proof.
  unfold BufferListBuffer_rebuild. intros H Hbl.
  destruct (isinitialized self).
  - destruct (bufferlist self) as [bl0|]; [|discriminate H].
    exists self. split; [reflexivity|].
    destruct (rebuild_lines B_eqb self O (py_filter (filtfun self) (ui_buffers self)))
      as [lines|e]; [|discriminate H]. simpl in H.
    destruct (py_mod (get_focus_position bl0) _) as [p|e]; [|discriminate H].
    injection H as <-. simpl in Hbl. now injection Hbl as <-.
  - simpl in H.
    exists (mkBufferListBuffer (filtfun self) (ui_buffers self) true (bufferlist self)).
    split; [reflexivity|].
    destruct (rebuild_lines B_eqb _ O (py_filter (filtfun self) (ui_buffers self)))
      as [lines|e]; [|discriminate H]. simpl in H.
    destruct (Z.of_nat _ =? 0); [discriminate H|].
    injection H as <-. simpl in Hbl. now injection Hbl as <-.
Qed.

(** X19: after a [BufferListBuffer.rebuild] that returns, line [i] of the
    list box shows the [i]-th displayed buffer, with the attribute of the
    even lines when [i] is even and of the odd lines otherwise, and its
    label is the formatted position of the first occurrence of that buffer
    among all the buffers of the user interface, not its position among the
    displayed ones. *)
Theorem BufferListBuffer_rebuild_lines
  {B : Type} (B_eqb : B -> B -> bool) (get_focus_position : ListBox B -> pyvalue)
  (self self' : BufferListBuffer B) (bl : ListBox B) (i : nat) (line : Line B) :
  (forall x y, B_eqb x y = true <-> x = y) ->
  BufferListBuffer_rebuild B_eqb get_focus_position self = (self', Done tt) ->
  bufferlist self' = Some bl ->
  nth_error (body bl) i = Some line ->
  nth_error (py_filter (filtfun self) (ui_buffers self)) i = Some (line_buffer line)
  /\ line_attr line = (if Nat.eqb (i mod 2) 0 then "bufferlist_results_even"
                       else "bufferlist_results_odd")
  /\ line_focus_attr line = "bufferlist_focus"
  /\ exists j,
       line_label line = fmt_3d_colon j
       /\ nth_error (ui_buffers self) j = Some (line_buffer line)
       /\ forall j', (j' < j)%nat -> nth_error (ui_buffers self) j' <> Some (line_buffer line).
Proof.
  intros Heq H Hbl Hn.
  destruct (BufferListBuffer_rebuild_body _ _ _ _ _ H Hbl) as [self0 [Hu Hl]].
  destruct (rebuild_lines_nth B_eqb self0 _ _ _ _ _ Hl Hn) as [H1 [H2 [H3 [j [Hj Hlab]]]]].
  split; [exact H1|]. split; [exact H2|]. split; [exact H3|].
  exists j. split; [exact Hlab|].
  unfold index_of in Hj. rewrite Hu in Hj.
  exact (list_index_first B_eqb _ _ Heq _ Hj).
Qed.

(** Of four buffers the filter keeps the second and the fourth: the labels
    are 1 and 3. *)
Lemma BufferListBuffer_rebuild_lines_witness :
  nth_error (py_filter (Some Nat.even) [11%nat; 12%nat; 13%nat; 14%nat]) 1 = Some 14%nat
  /\ "bufferlist_results_odd" = "bufferlist_results_odd"
  /\ "bufferlist_focus" = "bufferlist_focus"
  /\ exists j,
       "  3:" = fmt_3d_colon j
       /\ nth_error [11%nat; 12%nat; 13%nat; 14%nat] j = Some 14%nat
       /\ forall j', (j' < j)%nat ->
                     nth_error [11%nat; 12%nat; 13%nat; 14%nat] j' <> Some 14%nat.
Proof.
  apply (BufferListBuffer_rebuild_lines Nat.eqb last_focus
           (BufferListBuffer_new [11%nat; 12%nat; 13%nat; 14%nat] (Some Nat.even))
           (mkBufferListBuffer (Some Nat.even) [11%nat; 12%nat; 13%nat; 14%nat] true
              (Some (mkListBox
                       [mkLine "  1:" 12%nat "bufferlist_results_even" "bufferlist_focus";
                        mkLine "  3:" 14%nat "bufferlist_results_odd" "bufferlist_focus"]
                       [0])))
           (mkListBox
              [mkLine "  1:" 12%nat "bufferlist_results_even" "bufferlist_focus";
               mkLine "  3:" 14%nat "bufferlist_results_odd" "bufferlist_focus"]
              [0])
           1%nat
           (mkLine "  3:" 14%nat "bufferlist_results_odd" "bufferlist_focus")).
  - apply Nat.eqb_eq.
  - reflexivity.
  - reflexivity.
  - reflexivity.
Defined.

Example fmt_3d_colon_widths :
  fmt_3d_colon 7 = "  7:" /\ fmt_3d_colon 42 = " 42:" /\ fmt_3d_colon 1234 = "1234:".
Proof. repeat split. Qed.
